(** * Secure-token smart lock: server handlers and LiDAR frame decoders

    A shallow embedding of the validation service (Express + SQLite) and of
    the two door-controller firmware variants, followed by the properties
    of the token lifecycle, the rate limiter and the frame decoder. *)

From Stdlib Require Import ZArith Lia Bool.
From Stdlib Require Strings.Byte.
From stdpp Require Import base option list strings gmap fin_maps.

Local Open Scope string_scope.
Local Open Scope list_scope.
Local Open Scope Z_scope.

(** ** Server constants *)

Definition SHORT_TOKEN_TTL_MS : Z := 1 * 60 * 1000.
Definition RSSI_THRESHOLD : Z := -70.
Definition DISTANCE_THRESHOLD : Z := 90.
Definition WINDOW_MS : Z := 3 * 60 * 1000.
Definition MAX_REQUESTS : Z := 3.
Definition DEFAULT_ENROLLMENT_MS : Z := 120 * 24 * 60 * 60 * 1000.

(** ** Tables

    Every table is a finite map from its PRIMARY KEY column to the
    remaining columns of the row. *)

(** [enrollments (token PRIMARY KEY, permissions, created_at, expires_at)] *)
Record enrollment := Enrollment {
  permissions : string;
  e_created_at : Z;
  e_expires_at : Z
}.

(** [short_tokens (token PRIMARY KEY, enrollment_token, created_at,
    expires_at, used)]; [used] is 0 (pending), 1 (granted) or 2 (denied). *)
Record short_token := ShortToken {
  enrollment_token : string;
  s_created_at : Z;
  s_expires_at : Z;
  used : Z
}.

(** [rate_limits (enrollment_token PRIMARY KEY, requests, suspended_until)];
    [requests] is the JSON array of request timestamps. *)
Record rate_limit := RateLimit {
  requests : list Z;
  suspended_until : Z
}.

(** [identity_map (student_id PRIMARY KEY, token UNIQUE)] maps a student
    id to the enrollment token. *)
Record db := Db {
  enrollments : gmap string enrollment;
  identity_map : gmap string string;
  short_tokens : gmap string short_token;
  rate_limits : gmap string rate_limit
}.

Definition set_enrollments (f : gmap string enrollment → gmap string enrollment) (d : db) : db :=
  Db (f (enrollments d)) (identity_map d) (short_tokens d) (rate_limits d).
Definition set_identity_map (f : gmap string string → gmap string string) (d : db) : db :=
  Db (enrollments d) (f (identity_map d)) (short_tokens d) (rate_limits d).
Definition set_short_tokens (f : gmap string short_token → gmap string short_token) (d : db) : db :=
  Db (enrollments d) (identity_map d) (f (short_tokens d)) (rate_limits d).
Definition set_rate_limits (f : gmap string rate_limit → gmap string rate_limit) (d : db) : db :=
  Db (enrollments d) (identity_map d) (short_tokens d) (f (rate_limits d)).

Definition set_used (v : Z) (r : short_token) : short_token :=
  ShortToken (enrollment_token r) (s_created_at r) (s_expires_at r) v.

(** ** SQL statements

    One constructor per statement text that the server sends through
    [dbRun], [dbGet] or [dbAll]; the index is the type of the value the
    awaited promise resolves to.  An INSERT that violates a PRIMARY KEY or
    UNIQUE constraint rejects with SQLITE_CONSTRAINT. *)

Inductive sql_error := SQLITE_CONSTRAINT.

Inductive stmt : Type → Type :=
| SelectEnrollment (token : string) : stmt (option enrollment)
| InsertEnrollment (token : string) (row : enrollment) : stmt (sql_error + unit)
| DeleteEnrollment (token : string) : stmt unit
| SelectExpiredEnrollments (time : Z) : stmt (list string)
| DeleteExpiredEnrollments (time : Z) : stmt unit
| InsertIdentity (student_id token : string) : stmt (sql_error + unit)
| SelectIdentity (student_id : string) : stmt (option string)
| DeleteIdentity (student_id : string) : stmt unit
| DeleteIdentityByToken (token : string) : stmt unit
| SelectShortToken (token : string) : stmt (option short_token)
| InsertShortToken (token : string) (row : short_token) : stmt (sql_error + unit)
| UpdateShortTokenUsed (v : Z) (token : string) : stmt unit
| DeleteShortToken (token : string) : stmt unit
| DeleteExpiredShortTokens (time : Z) : stmt unit
| SelectRateLimit (enrollment_token : string) : stmt (option rate_limit)
| ReplaceRateLimit (enrollment_token : string) (row : rate_limit) : stmt unit.

Definition token_taken (token : string) (m : gmap string string) : bool :=
  bool_decide (map_Exists (λ _ t, t = token) m).

Definition exec {X} (q : stmt X) (d : db) : db * X :=
  match q in stmt X return db * X with
  | SelectEnrollment token => (d, enrollments d !! token)
  | InsertEnrollment token row =>
      match enrollments d !! token with
      | Some _ => (d, inl SQLITE_CONSTRAINT)
      | None => (set_enrollments (insert token row) d, inr tt)
      end
  | DeleteEnrollment token => (set_enrollments (delete token) d, tt)
  | SelectExpiredEnrollments time =>
      (d, (map_to_list (filter (λ kv, e_expires_at kv.2 ≤ time) (enrollments d))).*1)
  | DeleteExpiredEnrollments time =>
      (set_enrollments (filter (λ kv, ¬ e_expires_at kv.2 ≤ time)) d, tt)
  | InsertIdentity student_id token =>
      match identity_map d !! student_id with
      | Some _ => (d, inl SQLITE_CONSTRAINT)
      | None =>
          if token_taken token (identity_map d) then (d, inl SQLITE_CONSTRAINT)
          else (set_identity_map (insert student_id token) d, inr tt)
      end
  | SelectIdentity student_id => (d, identity_map d !! student_id)
  | DeleteIdentity student_id => (set_identity_map (delete student_id) d, tt)
  | DeleteIdentityByToken token =>
      (set_identity_map (filter (λ kv, kv.2 ≠ token)) d, tt)
  | SelectShortToken token => (d, short_tokens d !! token)
  | InsertShortToken token row =>
      match short_tokens d !! token with
      | Some _ => (d, inl SQLITE_CONSTRAINT)
      | None => (set_short_tokens (insert token row) d, inr tt)
      end
  | UpdateShortTokenUsed v token =>
      (set_short_tokens (alter (set_used v) token) d, tt)
  | DeleteShortToken token => (set_short_tokens (delete token) d, tt)
  | DeleteExpiredShortTokens time =>
      (set_short_tokens (filter (λ kv, ¬ s_expires_at kv.2 ≤ time)) d, tt)
  | SelectRateLimit k => (d, rate_limits d !! k)
  | ReplaceRateLimit k row => (set_rate_limits (insert k row) d, tt)
  end.

(** ** Request handlers

    A handler is an [async] function: it runs synchronously up to the next
    [await] of a statement, and resumes with the statement's result. *)

Inductive handler (R : Type) : Type :=
| Respond (r : R)
| Await {X : Type} (q : stmt X) (k : X → handler R).
Arguments Respond {R} r.
Arguments Await {R X} q k.

Notation "'const' x ':=' 'await' q ; h" := (Await q (λ x, h))
  (at level 10, x name, q at level 100, h at level 200, only parsing).
Notation "'await' q ; h" := (Await q (λ _, h))
  (at level 10, q at level 100, h at level 200, only parsing).

(** Running a handler to completion with no other request in between. *)
Fixpoint run {R} (h : handler R) (d : db) : db * R :=
  match h with
  | Respond r => (d, r)
  | Await q k => let '(d', x) := exec q d in run (k x) d'
  end.

(** JavaScript truthiness of a request field that is absent or a string. *)
Definition truthy (field : option string) : bool :=
  match field with
  | Some s => negb (String.eqb s "")
  | None => false
  end.

(** [perms.includes(doorId)]: substring test. *)
Fixpoint includes (s sub : string) : bool :=
  String.prefix sub s ||
  match s with
  | EmptyString => false
  | String _ s' => includes s' sub
  end.

(** *** POST /validate *)

Record validate_body := ValidateBody {
  vb_token : option string;
  vb_rssi : option Z;
  vb_distanceCm : option Z;
  vb_doorId : option string
}.

Inductive validate_response :=
| VBadRequest (error : string)      (* 400 {error} *)
| VDenied (reason : string)         (* 403 {granted: false, reason} *)
| VGranted.                         (* 200 {granted: true} *)

Definition validate (now : Z) (body : validate_body) : handler validate_response :=
  if negb (truthy (vb_token body)) then Respond (VBadRequest "token required")
  else if negb (truthy (vb_doorId body)) then Respond (VBadRequest "doorId required")
  else
    let token := default "" (vb_token body) in
    let doorId := default "" (vb_doorId body) in
    const entry := await SelectShortToken token;
    match entry with
    | None => Respond (VDenied "unknown_or_expired")
    | Some entry =>
        if s_expires_at entry <=? now then
          await DeleteShortToken token;
          Respond (VDenied "expired")
        else if used entry =? 1 then Respond (VDenied "already_used")
        else if used entry =? 2 then Respond (VDenied "already_denied")
        else
          const user := await SelectEnrollment (enrollment_token entry);
          match user with
          | None =>
              await UpdateShortTokenUsed 2 token;
              Respond (VDenied "access_revoked")
          | Some user =>
              let perms := permissions user in
              let canAccess := String.eqb perms "ALL" || includes perms doorId in
              if negb canAccess then
                await UpdateShortTokenUsed 2 token;
                Respond (VDenied "insufficient_permissions")
              else if match vb_rssi body with
                      | Some rssi => rssi <? RSSI_THRESHOLD
                      | None => false
                      end then
                await UpdateShortTokenUsed 2 token;
                Respond (VDenied "rssi_too_weak")
              else if match vb_distanceCm body with
                      | Some distanceCm => distanceCm >? DISTANCE_THRESHOLD
                      | None => false
                      end then
                await UpdateShortTokenUsed 2 token;
                Respond (VDenied "distance_too_far")
              else
                await UpdateShortTokenUsed 1 token;
                Respond VGranted
          end
    end.

(** *** GET /check-status *)

Inductive status_response :=
| SBadRequest (error : string)
| SStatus (status : string).

Definition check_status (token : option string) : handler status_response :=
  if negb (truthy token) then Respond (SBadRequest "token required")
  else
    const entry := await SelectShortToken (default "" token);
    match entry with
    | None => Respond (SStatus "expired")
    | Some entry =>
        if used entry =? 1 then Respond (SStatus "granted")
        else if used entry =? 2 then Respond (SStatus "denied")
        else Respond (SStatus "pending")
    end.

(** *** POST /enroll *)

Record enroll_body := EnrollBody {
  eb_enrollmentToken : option string;
  eb_studentId : option string;
  eb_permissions : option string;
  eb_adminSecret : option string;
  eb_expiresAt : option Z
}.

Inductive enroll_response :=
| EUnauthorized                     (* 403 {error: "unauthorized"} *)
| EBadRequest (error : string)      (* 400 {error} *)
| EConflict (error : string)        (* 409 {error} *)
| EOk.                              (* 200 {ok: true} *)

(** [expiresAt || (nowMs() + 120 days)] and [permissions || "ALL"]. *)
Definition expiry_or_default (now : Z) (expiresAt : option Z) : Z :=
  match expiresAt with
  | Some e => if e =? 0 then now + DEFAULT_ENROLLMENT_MS else e
  | None => now + DEFAULT_ENROLLMENT_MS
  end.

Definition perms_or_all (p : option string) : string :=
  if truthy p then default "" p else "ALL".

Definition enroll (ADMIN_SECRET : option string) (now : Z) (body : enroll_body)
  : handler enroll_response :=
  if negb (bool_decide (eb_adminSecret body = ADMIN_SECRET)) then Respond EUnauthorized
  else if negb (truthy (eb_enrollmentToken body)) || negb (truthy (eb_studentId body)) then
    Respond (EBadRequest "enrollmentToken and studentID required")
  else
    let enrollmentToken := default "" (eb_enrollmentToken body) in
    let studentId := default "" (eb_studentId body) in
    let expiry := expiry_or_default now (eb_expiresAt body) in
    let perms := perms_or_all (eb_permissions body) in
    const r1 := await InsertEnrollment enrollmentToken (Enrollment perms now expiry);
    match r1 with
    | inl SQLITE_CONSTRAINT => Respond (EConflict "token or studentId already exists")
    | inr _ =>
        const r2 := await InsertIdentity studentId enrollmentToken;
        match r2 with
        | inl SQLITE_CONSTRAINT => Respond (EConflict "token or studentId already exists")
        | inr _ => Respond EOk
        end
    end.

(** *** POST /request-token *)

Inductive token_response :=
| TBadRequest (error : string)            (* 400 {error} *)
| TForbidden (error : string)             (* 403 {error} *)
| TRateLimited (suspendedUntil : Z)       (* 429 {error: "rate_limited", suspendedUntil} *)
| TInternalError                          (* 500 {error: "internal error"} *)
| TIssued (token : string) (expiresAt : Z). (* 200 {token, expiresAt} *)

(** [now] is the value of [nowMs()] read at the top of the handler and
    [tokenStr] the value that [genRandomToken()] returns. *)
Definition request_token (now : Z) (tokenStr : string) (enrollmentToken : option string)
  : handler token_response :=
  if negb (truthy enrollmentToken) then Respond (TBadRequest "enrollmentToken required")
  else
    let enrollmentToken := default "" enrollmentToken in
    const user := await SelectEnrollment enrollmentToken;
    match user with
    | None => Respond (TForbidden "unknown enrollmentToken")
    | Some user =>
        if e_expires_at user <? now then Respond (TForbidden "enrollment_expired")
        else
          const rateRow := await SelectRateLimit enrollmentToken;
          let rateData := default (RateLimit [] 0) rateRow in
          if suspended_until rateData >? now then
            Respond (TRateLimited (suspended_until rateData))
          else
            let kept := filter (λ ts, ts > now - WINDOW_MS) (requests rateData) in
            if Z.of_nat (length kept) >=? MAX_REQUESTS then
              await ReplaceRateLimit enrollmentToken (RateLimit [] (now + WINDOW_MS));
              Respond (TRateLimited (now + WINDOW_MS))
            else
              await ReplaceRateLimit enrollmentToken (RateLimit (kept ++ [now]) 0);
              let expiresAt := now + SHORT_TOKEN_TTL_MS in
              const r := await InsertShortToken tokenStr
                           (ShortToken enrollmentToken now expiresAt 0);
              match r with
              | inl _ => Respond TInternalError
              | inr _ => Respond (TIssued tokenStr expiresAt)
              end
    end.

(** *** POST /revoke-enrollment *)

Inductive revoke_response :=
| RUnauthorized                     (* 403 {error: "unauthorized"} *)
| RBadRequest (error : string)      (* 400 {error} *)
| RNotFound (error : string)        (* 404 {error} *)
| ROk.                              (* 200 {ok: true, message} *)

Definition revoke_enrollment (ADMIN_SECRET : option string)
    (studentId adminSecret : option string) : handler revoke_response :=
  if negb (bool_decide (adminSecret = ADMIN_SECRET)) then Respond RUnauthorized
  else if negb (truthy studentId) then Respond (RBadRequest "studentId required")
  else
    let studentId := default "" studentId in
    const mapEntry := await SelectIdentity studentId;
    match mapEntry with
    | None => Respond (RNotFound "student_not_found")
    | Some token =>
        await DeleteEnrollment token;
        await DeleteIdentity studentId;
        Respond ROk
    end.

(** *** Background sweeps *)

Definition cleanupExpiredTokens (time : Z) : handler unit :=
  await DeleteExpiredShortTokens time;
  Respond tt.

Fixpoint delete_identities (expiredTokens : list string) (k : handler unit) : handler unit :=
  match expiredTokens with
  | [] => k
  | t :: ts => await DeleteIdentityByToken t; delete_identities ts k
  end.

Definition cleanupEnrollmentTokens (time : Z) : handler unit :=
  const expiredTokens := await SelectExpiredEnrollments time;
  if (0 <? Z.of_nat (length expiredTokens)) then
    await DeleteExpiredEnrollments time;
    delete_identities expiredTokens (Respond tt)
  else Respond tt.

(** ** The service as a whole

    Every operation that touches the tables: the six routes and the two
    background sweeps, each run to completion. *)

Inductive request :=
| PostEnroll (now : Z) (body : enroll_body)
| PostRequestToken (now : Z) (tokenStr : string) (enrollmentToken : option string)
| PostValidate (now : Z) (body : validate_body)
| PostRevokeEnrollment (studentId adminSecret : option string)
| GetCheckStatus (token : option string)
| SweepTokens (time : Z)
| SweepEnrollments (time : Z).

Definition serve (ADMIN_SECRET : option string) (r : request) (d : db) : db :=
  match r with
  | PostEnroll now body => (run (enroll ADMIN_SECRET now body) d).1
  | PostRequestToken now tokenStr enrollmentToken =>
      (run (request_token now tokenStr enrollmentToken) d).1
  | PostValidate now body => (run (validate now body) d).1
  | PostRevokeEnrollment studentId adminSecret =>
      (run (revoke_enrollment ADMIN_SECRET studentId adminSecret) d).1
  | GetCheckStatus token => (run (check_status token) d).1
  | SweepTokens time => (run (cleanupExpiredTokens time) d).1
  | SweepEnrollments time => (run (cleanupEnrollmentTokens time) d).1
  end.

Definition serve_all (ADMIN_SECRET : option string) (rs : list request) (d : db) : db :=
  foldl (λ d r, serve ADMIN_SECRET r d) d rs.

(** The request is a token issuance whose random token string is [t]. *)
Definition draws (t : string) (r : request) : Prop :=
  match r with
  | PostRequestToken _ tokenStr _ => tokenStr = t
  | _ => False
  end.

(** ** Overlapping requests

    Node runs one handler at a time but switches between in-flight
    handlers at every [await].  [step] lets the awaited statement of one
    handler complete and runs that handler up to its next [await]. *)

Definition step {R} (h : handler R) (d : db) : db * handler R :=
  match h with
  | Respond r => (d, Respond r)
  | Await q k => let '(d', x) := exec q d in (d', k x)
  end.

(** Two in-flight requests; the schedule says whose statement completes
    next ([true] for the first).  When the schedule is used up the first
    handler finishes, then the second. *)
Fixpoint interleave {R} (sched : list bool) (a b : handler R) (d : db) : db * R * R :=
  match sched with
  | [] => let '(d1, ra) := run a d in let '(d2, rb) := run b d1 in (d2, ra, rb)
  | true :: sched' => let '(d', a') := step a d in interleave sched' a' b d'
  | false :: sched' => let '(d', b') := step b d in interleave sched' a b' d'
  end.

(** ** Door-controller firmware: the LiDAR frame decoder *)

Definition byte_val (b : Byte.byte) : Z := Z.of_N (Byte.to_N b).

(** The receive side of [Serial2]: a FIFO of bytes. [read] and [peek]
    return -1 on an empty FIFO. *)
Module Serial2.
Definition available (rx : list Byte.byte) : Z := Z.of_nat (length rx).

Definition read (rx : list Byte.byte) : Z * list Byte.byte :=
  match rx with
  | [] => (-1, [])
  | b :: rx' => (byte_val b, rx')
  end.

Definition peek (rx : list Byte.byte) : Z :=
  match rx with
  | [] => -1
  | b :: _ => byte_val b
  end.

(** [while (Serial2.available() > 0) Serial2.read();] *)
Fixpoint flush (rx : list Byte.byte) : list Byte.byte :=
  match rx with
  | [] => []
  | _ :: rx' => flush rx'
  end.
End Serial2.

(** What one evaluation of the read loop's condition observes: the value
    of [millis()] and the bytes the sensor has delivered into the FIFO
    since the previous evaluation. *)
Record poll := Poll {
  p_millis : Z;
  p_arrived : list Byte.byte
}.

(** [millis() - start] on [unsigned long] (32 bits). *)
Definition elapsed (start t : Z) : Z := (t - start) mod 2 ^ 32.

(** The read loop shared by both variants: [budget] is the time-out in
    milliseconds and [body] the loop body once 9 bytes are available,
    which either returns a distance or leaves the loop running.  The
    result is [None] when the observations end before the loop does. *)
Fixpoint read_loop (budget : Z) (body : list Byte.byte → option Z * list Byte.byte)
    (start : Z) (polls : list poll) (rx : list Byte.byte) : option Z :=
  match polls with
  | [] => None
  | p :: polls' =>
      let rx := rx ++ p_arrived p in
      if elapsed start (p_millis p) <? budget then
        if Serial2.available rx >=? 9 then
          match body rx with
          | (Some dist, _) => Some dist
          | (None, rx') => read_loop budget body start polls' rx'
          end
        else read_loop budget body start polls' rx
      else Some 999
  end.

(** The BLE-scanning controller. *)
Module BleController.
Definition frame (rx : list Byte.byte) : option Z * list Byte.byte :=
  let '(c, rx) := Serial2.read rx in
  if c =? 0x59 then
    if Serial2.peek rx =? 0x59 then
      let '(_, rx) := Serial2.read rx in
      let '(distL, rx) := Serial2.read rx in
      let '(distH, rx) := Serial2.read rx in
      let '(strL, rx) := Serial2.read rx in
      let '(strH, rx) := Serial2.read rx in
      let '(tempL, rx) := Serial2.read rx in
      let '(tempH, rx) := Serial2.read rx in
      let '(checksum, rx) := Serial2.read rx in
      let sum := 0x59 + 0x59 + distL + distH + strL + strH + tempL + tempH in
      if Z.land sum 0xFF =? checksum then
        let newDist := distL + distH * 256 in
        if (newDist >? 0) && (newDist <? 1200) then (Some newDist, rx)
        else (None, rx)
      else (None, rx)
    else (None, rx)
  else (None, rx).

(** [stale] is the FIFO content on entry and [start] the value of
    [millis()] after the 25 ms settle delay. *)
Definition getRobustLidarDistance (stale : list Byte.byte) (start : Z)
    (polls : list poll) : option Z :=
  read_loop 50 frame start polls (Serial2.flush stale).
End BleController.

(** The Wi-Fi controller (firmware/main.ino). *)
Module WifiController.
Fixpoint consume (n : nat) (rx : list Byte.byte) : list Byte.byte :=
  match n with
  | O => rx
  | S n' => consume n' (Serial2.read rx).2
  end.

Definition frame (rx : list Byte.byte) : option Z * list Byte.byte :=
  let '(c, rx) := Serial2.read rx in
  if c =? 0x59 then
    if Serial2.peek rx =? 0x59 then
      let '(_, rx) := Serial2.read rx in
      let '(distL, rx) := Serial2.read rx in
      let '(distH, rx) := Serial2.read rx in
      let rx := consume 5 rx in
      let dist := distL + distH * 256 in
      if (dist >? 0) && (dist <? 1200) then (Some dist, rx)
      else (None, rx)
    else (None, rx)
  else (None, rx).

(** [start] is the value of [millis()] after the 30 ms settle delay. *)
Definition getRobustLidarDistance (stale : list Byte.byte) (start : Z)
    (polls : list poll) : option Z :=
  read_loop 200 frame start polls (Serial2.flush stale).
End WifiController.

(** The body both controllers post to /validate: the token, the sampled
    RSSI, the decoder's result and the door id. *)
Definition relay (token DOOR_ID : string) (rssi distance : Z) : validate_body :=
  ValidateBody (Some token) (Some rssi) (Some distance) (Some DOOR_ID).

(** ** Frames *)

(** The checksum of a 9-byte frame: the low byte of the sum of its first
    eight bytes against the ninth. *)
Definition checksum_ok (f : list Byte.byte) : bool :=
  match f with
  | [b0; b1; b2; b3; b4; b5; b6; b7; b8] =>
      Z.land (byte_val b0 + byte_val b1 + byte_val b2 + byte_val b3 + byte_val b4
              + byte_val b5 + byte_val b6 + byte_val b7) 0xFF =? byte_val b8
  | _ => false
  end.

Definition synced (f : list Byte.byte) : bool :=
  match f with
  | b0 :: b1 :: _ => (byte_val b0 =? 0x59) && (byte_val b1 =? 0x59)
  | _ => false
  end.

Definition frame_distance (f : list Byte.byte) : Z :=
  match f with
  | _ :: _ :: distL :: distH :: _ => byte_val distL + byte_val distH * 256
  | _ => 0
  end.

(** [f] occurs in [stream] as consecutive bytes. *)
Definition window (f stream : list Byte.byte) : Prop :=
  ∃ pre post, stream = pre ++ f ++ post.

Definition arrivals (polls : list poll) : list Byte.byte :=
  concat (map p_arrived polls).

Definition timed_out (budget start : Z) (p : poll) : Prop :=
  budget ≤ elapsed start (p_millis p).

(** What the BLE controller's loop body accepts: a 9-byte frame with both
    sync bytes, a matching checksum and a distance in range. *)
Definition accepted (f : list Byte.byte) (d : Z) : Prop :=
  length f = 9%nat ∧ synced f = true ∧ checksum_ok f = true ∧
  frame_distance f = d ∧ 0 < d < 1200.

(** The two controllers side by side. *)
Inductive controller := Ble | Wifi.

Definition time_budget (c : controller) : Z :=
  match c with Ble => 50 | Wifi => 200 end.

Definition decoder (c : controller) : list Byte.byte → Z → list poll → option Z :=
  match c with
  | Ble => BleController.getRobustLidarDistance
  | Wifi => WifiController.getRobustLidarDistance
  end.

(** ** Vocabulary of the statements *)

(** [UPDATE short_tokens SET used = v WHERE token = ?] as a function on
    the tables, and the [used] column of a token as a reader sees it. *)
Definition commit (v : Z) (token : string) (d : db) : db :=
  set_short_tokens (alter (set_used v) token) d.

Definition state_of (token : string) (d : db) : option Z :=
  used <$> short_tokens d !! token.

(** The permission test of POST /validate. *)
Definition canAccess (user : enrollment) (doorId : string) : bool :=
  String.eqb (permissions user) "ALL" || includes (permissions user) doorId.

(** The row of [t] is the decided row [row0], or has been deleted. *)
Definition settled (t : string) (row0 : short_token) (d : db) : Prop :=
  short_tokens d !! t = Some row0 ∨ short_tokens d !! t = None.

(** The four denials that POST /validate commits. *)
Definition commits_denied (r : validate_response) : Prop :=
  r = VDenied "access_revoked" ∨ r = VDenied "insufficient_permissions" ∨
  r = VDenied "rssi_too_weak" ∨ r = VDenied "distance_too_far".

(** The credential row with another expiry timestamp. *)
Definition with_expiry (x : Z) (e : enrollment) : enrollment :=
  Enrollment (permissions e) (e_created_at e) x.

(** ** Scenarios *)

(** The tables of the scenarios: credential C1 may open door D1 and has
    one pending short token T1, issued at 100 and expiring at 60100. *)
Definition demo_db : db :=
  Db {[ "C1" := Enrollment "D1" 0 1000000 ]}
     {[ "40000000" := "C1" ]}
     {[ "T1" := ShortToken "C1" 100 60100 0 ]}
     ∅.

Definition demo_body : validate_body :=
  ValidateBody (Some "T1") (Some (-60)) (Some 50) (Some "D1").

Definition demo_granted : db := (run (validate 200 demo_body) demo_db).1.

(** Credential C2 may open every door and expired at 1000; its short
    token T2 was issued at 990. *)
Definition expired_db : db :=
  Db {[ "C2" := Enrollment "ALL" 0 1000 ]}
     {[ "50000000" := "C2" ]}
     {[ "T2" := ShortToken "C2" 990 60990 0 ]}
     ∅.

(** Three requests inside one window pass; the fourth suspends the
    credential for a full window and empties the list; a fifth during the
    suspension is answered with the same deadline and writes nothing. *)
Definition three_issued : db :=
  serve_all None
    [PostRequestToken 1000 "aa" (Some "C1"); PostRequestToken 2000 "bb" (Some "C1");
     PostRequestToken 3000 "cc" (Some "C1")] demo_db.

(** A request to enroll the new credential C9 under the student id that
    already maps to C1. *)
Definition second_enrollment : enroll_body :=
  EnrollBody (Some "C9") (Some "40000000") None (Some "s3cret") None.

Definition half_enrolled : db :=
  (run (enroll (Some "s3cret") 500 second_enrollment) demo_db).1.

(** A frame for 50 cm, and the same frame with checksum byte 0x00 instead
    of 0xE4. *)
Definition good_frame : list Byte.byte :=
  [Byte.x59; Byte.x59; Byte.x32; Byte.x00; Byte.x00; Byte.x00; Byte.x00; Byte.x00; Byte.xe4].

Definition corrupted_frame : list Byte.byte :=
  [Byte.x59; Byte.x59; Byte.x32; Byte.x00; Byte.x00; Byte.x00; Byte.x00; Byte.x00; Byte.x00].

(** ** Vocabulary of the further properties *)

(** What GET /check-status reports for a token right after POST /validate
    answered a well-formed request for it. *)
Definition status_for (r : validate_response) : string :=
  match r with
  | VGranted => "granted"
  | VDenied reason =>
      if String.eqb reason "already_used" then "granted"
      else if String.eqb reason "expired" || String.eqb reason "unknown_or_expired"
      then "expired"
      else "denied"
  | VBadRequest _ => "expired"
  end.

(** The requests that can write the credential tables: an enroll or a
    revoke that carries the admin secret, and the enrollment sweep. *)
Definition changes_credentials (ADMIN_SECRET : option string) (r : request) : Prop :=
  match r with
  | PostEnroll _ body => eb_adminSecret body = ADMIN_SECRET
  | PostRevokeEnrollment _ adminSecret => adminSecret = ADMIN_SECRET
  | SweepEnrollments _ => True
  | _ => False
  end.

(** Every identity-map row names a stored credential, and no credential
    is named by two student ids. *)
Definition integrity (d : db) : Prop :=
  (∀ sid c, identity_map d !! sid = Some c → is_Some (enrollments d !! c)) ∧
  (∀ s1 s2 c, identity_map d !! s1 = Some c → identity_map d !! s2 = Some c → s1 = s2).

(** The clock reading of a token request made with credential [c]. *)
Definition request_time (c : string) (r : request) : option Z :=
  match r with
  | PostRequestToken now _ enrollmentToken =>
      if bool_decide (enrollmentToken = Some c) then Some now else None
  | _ => None
  end.

(** The issue time when request [r], served on tables [d], answers
    credential [c] with a short token. *)
Definition issues (c : string) (r : request) (d : db) : option Z :=
  match r with
  | PostRequestToken now tokenStr enrollmentToken =>
      if bool_decide (enrollmentToken = Some c) then
        match (run (request_token now tokenStr enrollmentToken) d).2 with
        | TIssued _ _ => Some now
        | _ => None
        end
      else None
  | _ => None
  end.

(** The issue times of the short tokens handed to credential [c] while the
    requests [rs] are served one after the other, oldest first. *)
Fixpoint issued_times (ADMIN_SECRET : option string) (c : string)
    (rs : list request) (d : db) : list Z :=
  match rs with
  | [] => []
  | r :: rs' =>
      option_list (issues c r d) ++ issued_times ADMIN_SECRET c rs' (serve ADMIN_SECRET r d)
  end.

(** Clock readings that never go back, starting from [last]. *)
Fixpoint nondecreasing_from (last : Z) (l : list Z) : Prop :=
  match l with
  | [] => True
  | x :: l' => last ≤ x ∧ nondecreasing_from x l'
  end.

Definition nondecreasing (l : list Z) : Prop :=
  match l with
  | [] => True
  | x :: l' => nondecreasing_from x l'
  end.

(** The rate-limit row of a credential as the handler reads it. *)
Definition rate_row (c : string) (d : db) : rate_limit :=
  default (RateLimit [] 0) (rate_limits d !! c).

(** The issue times [L], none later than [last], are accounted for in the
    rate-limit row of [c]: each one that is less than a window old at
    [last], and not covered by the suspension, is among the stored
    timestamps. *)
Definition accounted (c : string) (last : Z) (d : db) (L : list Z) : Prop :=
  Forall (λ ts, ts ≤ last) L ∧
  filter (λ ts, last - WINDOW_MS < ts ∧
                suspended_until (rate_row c d) - WINDOW_MS < ts) L
  ⊆+ requests (rate_row c d).

(** No span of WINDOW_MS milliseconds holds more than MAX_REQUESTS of the
    times [L]. *)
Definition within_limit (L : list Z) : Prop :=
  ∀ a, Z.of_nat (length (filter (λ ts, a - WINDOW_MS < ts ∧ ts ≤ a) L)) ≤ MAX_REQUESTS.

(** The statement reads or writes the short-token row of [t] only, or
    reads a credential. *)
Definition stmt_on (t : string) {X} (q : stmt X) : Prop :=
  match q with
  | SelectShortToken t' => t' = t
  | DeleteShortToken t' => t' = t
  | UpdateShortTokenUsed _ t' => t' = t
  | SelectEnrollment _ => True
  | _ => False
  end.

(** Every statement the handler can come to send is such a statement. *)
Inductive on_token {R} (t : string) : handler R → Prop :=
| on_token_respond r : on_token t (Respond r)
| on_token_await {X} (q : stmt X) k :
    stmt_on t q → (∀ x, on_token t (k x)) → on_token t (Await q k).

(** What the Wi-Fi controller's loop body accepts: nine bytes that start
    with both sync bytes and carry a distance in range; the checksum byte
    is not looked at. *)
Definition accepted_unchecked (f : list Byte.byte) (d : Z) : Prop :=
  length f = 9%nat ∧ synced f = true ∧ frame_distance f = d ∧ 0 < d < 1200.

Definition accepts (c : controller) : list Byte.byte → Z → Prop :=
  match c with
  | Ble => accepted
  | Wifi => accepted_unchecked
  end.

(** ** Door-controller firmware: handling an access attempt *)

(** What a controller does to the outside during one access attempt: the
    answer of its local web server, the request it posts to the validation
    service, and the calls that reach the servo, the buzzer and the clock.
    Drawing on the OLED and logging to [Serial] change none of these and
    are not recorded. *)
Inductive content :=
| Plain (text : string)
| Json (fields : list (string * string)).

Inductive event :=
| ServerSend (code : Z) (body : content)
| HttpPost (body : validate_body)
| ServoWrite (angle : Z)
| Tone (frequency duration : Z)
| Delay (ms : Z).

(** The outcome of [http.POST]: the return code (not positive when the
    request failed) and, from the response document, [respDoc["granted"]]
    as a bool and [respDoc["reason"]] as a string. *)
Record http_reply := HttpReply {
  httpCode : Z;
  r_granted : bool;
  r_reason : string
}.

(** [performUnlock] and [performDeny] make the same calls in both
    firmware variants. *)
Definition performUnlock : list event :=
  [Tone 1000 100; Delay 100; Tone 1500 100; Delay 100; Tone 2000 200;
   ServoWrite 90; Delay 5000; ServoWrite 0; Tone 500 300].

Definition performDeny (reason : string) : list event :=
  [Tone 200 1000; Delay 2000].

(** [handleUnlockRequest] of the Wi-Fi controller.  [hasPlain] is
    [server.hasArg("plain")], [token] the string read from the request
    document, [lastRSSI] the value of [WiFi.RSSI()], [post] the validation
    service as seen through [http.POST], and [stale], [start], [polls] what
    the decoder observes. *)
Definition handleUnlockRequest (DOOR_ID : string) (hasPlain : bool) (token : string)
    (lastRSSI : Z) (stale : list Byte.byte) (start : Z) (polls : list poll)
    (post : validate_body → http_reply) : option (list event) :=
  if negb hasPlain then Some [ServerSend 400 (Plain "Body missing")]
  else if negb (Nat.eqb (String.length token) 18) then
    Some [ServerSend 400 (Json [("error", "Invalid token format")])]
  else
    match WifiController.getRobustLidarDistance stale start polls with
    | None => None
    | Some distance =>
        let body := relay token DOOR_ID lastRSSI distance in
        let reply := post body in
        let granted := if httpCode reply >? 0 then r_granted reply else false in
        let reason :=
          if (httpCode reply >? 0) && negb granted then r_reason reply
          else "server_error" in
        Some (HttpPost body ::
              if granted then
                ServerSend 200 (Json [("status", "unlocked")]) :: performUnlock
              else
                ServerSend 403 (Json [("status", "denied"); ("reason", reason)])
                :: performDeny reason)
    end.

(** The state of the BLE controller between two runs of [loop]. *)
Record ble_state := BleState {
  isScanning : bool;
  foundToken : string;
  foundRSSI : Z
}.

(** [processAccessRequest] of the BLE controller; [connected] is
    [WiFi.status() == WL_CONNECTED]. *)
Definition processAccessRequest (DOOR_ID : string) (st : ble_state)
    (stale : list Byte.byte) (start : Z) (polls : list poll) (connected : bool)
    (post : validate_body → http_reply) : option (list event) :=
  match BleController.getRobustLidarDistance stale start polls with
  | None => None
  | Some distance =>
      if connected then
        let body := relay (foundToken st) DOOR_ID (foundRSSI st) distance in
        let reply := post body in
        Some (HttpPost body ::
              if httpCode reply >? 0 then
                if r_granted reply then performUnlock
                else performDeny (r_reason reply)
              else [Delay 2000])
      else Some [Delay 1000]
  end.

(** The scan results are searched in order for the first device whose
    name has the length of a token. *)
Fixpoint first_token (devices : list (string * Z)) : option (string * Z) :=
  match devices with
  | [] => None
  | (name, rssi) :: devices' =>
      if Nat.eqb (String.length name) 18 then Some (name, rssi)
      else first_token devices'
  end.

(** One run of [loop] of the BLE controller: [devices] are the names and
    signal strengths the one-second scan returns. *)
Definition loop (DOOR_ID : string) (st : ble_state) (devices : list (string * Z))
    (stale : list Byte.byte) (start : Z) (polls : list poll) (connected : bool)
    (post : validate_body → http_reply) : option (ble_state * list event) :=
  if isScanning st then
    match first_token devices with
    | Some (name, rssi) => Some (BleState false name rssi, [])
    | None => Some (st, [])
    end
  else
    match processAccessRequest DOOR_ID st stale start polls connected post with
    | None => None
    | Some evs => Some (BleState true (foundToken st) (foundRSSI st), evs ++ [Delay 2000])
    end.

(** The servo angle after the calls of a log. *)
Definition servo_after (angle : Z) (evs : list event) : Z :=
  foldl (λ a e, match e with ServoWrite x => x | _ => a end) angle evs.

(** The validation service as the controllers see it: the status code
    and the [granted] and [reason] members of the JSON answer; [absent] is
    what the controller reads for a member the answer does not have. *)
Definition server_reply (now : Z) (d : db) (absent : string)
    (body : validate_body) : http_reply :=
  match (run (validate now body) d).2 with
  | VGranted => HttpReply 200 true absent
  | VDenied reason => HttpReply 403 false reason
  | VBadRequest _ => HttpReply 400 false absent
  end.

(** ** Token strings *)

Definition SHORT_TOKEN_BYTES : nat := 9.

(** [buffer.toString("hex")]: two lower-case hexadecimal digits per byte
    (the digits 0 to 9 are the characters 48 to 57, a to f are 97 to 102). *)
Definition hex_digit (n : N) : Ascii.ascii :=
  Ascii.ascii_of_N (if (n <? 10)%N then 48 + n else 87 + n)%N.

Fixpoint toString_hex (buffer : list Byte.byte) : string :=
  match buffer with
  | [] => ""
  | b :: buffer' =>
      String (hex_digit (Byte.to_N b / 16))
        (String (hex_digit (Byte.to_N b mod 16)) (toString_hex buffer'))
  end.

(** [genRandomToken]: [randomBytes] is what [crypto.randomBytes(bytes)]
    returns, a buffer of [bytes] bytes. *)
Definition genRandomToken (randomBytes : list Byte.byte) : string :=
  toString_hex randomBytes.

(** The tables after credential C1 has been issued the short token
    0123456789abcdef01 at time 200. *)
Definition door_db : db :=
  (run (request_token 200 "0123456789abcdef01" (Some "C1")) demo_db).1.

(** The credential that database.js seeds for Alice: its permission
    string is the door id LAB_968.  It holds the pending short token
    0123456789abcdef01, issued at 100. *)
Definition alice_db : db :=
  Db {[ "ALICE_ENROLLMENT_TOKEN" := Enrollment "LAB_968" 0 1777593600000 ]}
     {[ "40000000" := "ALICE_ENROLLMENT_TOKEN" ]}
     {[ "0123456789abcdef01" := ShortToken "ALICE_ENROLLMENT_TOKEN" 100 60100 0 ]}
     ∅.

(** Credential C1, enrolled and without short tokens, after two token
    requests served at 0 and at 1. *)
Definition two_issued : db :=
  serve_all None
    [PostRequestToken 0 "aa" (Some "C1"); PostRequestToken 1 "bb" (Some "C1")]
    (Db {[ "C1" := Enrollment "D1" 0 1000000 ]} {[ "40000000" := "C1" ]} ∅ ∅).

(** ** Proof automation *)

(** Case analysis on every branch a handler run takes. *)
Ltac branches :=
  repeat (simpl;
          match goal with
          | |- context [if ?c then _ else _] => destruct c eqn:?
          | |- context [match ?x with Some _ => _ | None => _ end] => destruct x eqn:?
          | |- context [match ?x with inl _ => _ | inr _ => _ end] => destruct x eqn:?
          end);
  simpl.

(** Boolean comparisons in the context as propositions. *)
Ltac zbool :=
  repeat match goal with
         | H : (_ <? _) = true |- _ => apply Z.ltb_lt in H
         | H : (_ <? _) = false |- _ => apply Z.ltb_ge in H
         | H : (_ <=? _) = true |- _ => apply Z.leb_le in H
         | H : (_ <=? _) = false |- _ => apply Z.leb_gt in H
         | H : (_ >? _) = _ |- _ => rewrite Z.gtb_ltb in H
         | H : (_ >=? _) = _ |- _ => rewrite Z.geb_leb in H
         | H : (_ =? _) = true |- _ => apply Z.eqb_eq in H
         | H : (_ =? _) = false |- _ => apply Z.eqb_neq in H
         end.

(** * Properties of the frame decoder *)

Lemma byte_val_range b : 0 ≤ byte_val b < 256.
Proof.
  unfold byte_val. pose proof (Byte.to_N_bounded b). lia.
Qed.

Lemma arrivals_cons p polls : arrivals (p :: polls) = p_arrived p ++ arrivals polls.
Proof. reflexivity. Qed.

Section ReadLoop.
Variable budget : Z.
Variable body : list Byte.byte → option Z * list Byte.byte.
Variable start : Z.

(** The loop can only return what its body returns, or the sentinel. *)
Lemma read_loop_result polls : ∀ rx d,
  read_loop budget body start polls rx = Some d →
  d = 999 ∨ ∃ rx0 rx1, body rx0 = (Some d, rx1).
Proof.
  induction polls as [|p polls IH]; intros rx d; simpl; [discriminate|].
  destruct (elapsed start (p_millis p) <? budget); [|intros [= <-]; by left].
  destruct (Serial2.available (rx ++ p_arrived p) >=? 9); [|by apply IH].
  destruct (body (rx ++ p_arrived p)) as [[d'|] rx'] eqn:Hb; [|by apply IH].
  intros [= <-]. right. eauto.
Qed.

(** Once the clock has run past the budget the loop has returned. *)
Lemma read_loop_returns polls : ∀ rx,
  Exists (timed_out budget start) polls →
  is_Some (read_loop budget body start polls rx).
Proof.
  induction polls as [|p polls IH]; intros rx Hex; [by inversion Hex|].
  simpl. destruct (elapsed start (p_millis p) <? budget) eqn:Ht; [|eauto].
  assert (Exists (timed_out budget start) polls) as Hex'.
  { inversion Hex as [?? Hp|]; subst; [|done].
    unfold timed_out in Hp. apply Z.ltb_lt in Ht. lia. }
  destruct (Serial2.available (rx ++ p_arrived p) >=? 9); [|by apply IH].
  destruct (body (rx ++ p_arrived p)) as [[d'|] rx']; [eauto|by apply IH].
Qed.

(** Every byte the body is given comes from the FIFO content followed by
    the arrivals, provided the body only ever drops a prefix. *)
Lemma read_loop_window (accepts : list Byte.byte → Z → Prop) polls :
  (∀ rx d rx', (Serial2.available rx >=? 9) = true → body rx = (Some d, rx') →
     ∃ f, rx = f ++ rx' ∧ accepts f d) →
  (∀ rx rx', body rx = (None, rx') → ∃ pre, rx = pre ++ rx') →
  ∀ rx d, read_loop budget body start polls rx = Some d →
  d = 999 ∨ ∃ f, window f (rx ++ arrivals polls) ∧ accepts f d.
Proof.
  intros Hacc Hdrop.
  induction polls as [|p polls IH]; intros rx d; [discriminate|].
  rewrite arrivals_cons, app_assoc. cbn [read_loop].
  destruct (elapsed start (p_millis p) <? budget); [|intros [= <-]; by left].
  destruct (Serial2.available (rx ++ p_arrived p) >=? 9) eqn:Hav; [|by apply IH].
  destruct (body (rx ++ p_arrived p)) as [[d'|] rx'] eqn:Hb.
  - intros [= <-]. right. destruct (Hacc _ _ _ Hav Hb) as (f & Hrx & Hf).
    exists f. split; [|done]. exists [], (rx' ++ arrivals polls).
    rewrite Hrx. by rewrite <-app_assoc.
  - intros Hloop. destruct (Hdrop _ _ Hb) as [pre Hpre].
    destruct (IH _ _ Hloop) as [->|(f & (pre' & post & Hw) & Hf)]; [by left|].
    right. exists f. split; [|done]. exists (pre ++ pre'), post.
    rewrite Hpre, <-!app_assoc. by rewrite Hw.
Qed.
End ReadLoop.

Lemma ble_frame_accepts rx d rx' :
  (Serial2.available rx >=? 9) = true →
  BleController.frame rx = (Some d, rx') →
  ∃ f, rx = f ++ rx' ∧ accepted f d.
Proof.
  intros Hav.
  destruct rx as [|b0 [|b1 [|b2 [|b3 [|b4 [|b5 [|b6 [|b7 [|b8 rx]]]]]]]]];
    try (vm_compute in Hav; discriminate).
  clear Hav. unfold BleController.frame; simpl.
  destruct (byte_val b0 =? 89) eqn:H0; [|discriminate].
  destruct (byte_val b1 =? 89) eqn:H1; [|discriminate].
  destruct (Z.land _ 255 =? byte_val b8) eqn:Hck; [|discriminate].
  destruct ((_ >? 0) && (_ <? 1200)) eqn:Hr; [|discriminate].
  intros [= <- <-]. exists [b0; b1; b2; b3; b4; b5; b6; b7; b8].
  split; [done|]. unfold accepted; simpl. rewrite H0, H1.
  apply Z.eqb_eq in H0, H1. rewrite H0, H1.
  apply andb_prop in Hr as [?%Z.gtb_lt ?%Z.ltb_lt].
  repeat split; auto with lia.
Qed.

Lemma ble_frame_drops rx rx' :
  BleController.frame rx = (None, rx') → ∃ pre, rx = pre ++ rx'.
Proof.
  unfold BleController.frame.
  destruct rx as [|b0 rx]; simpl.
  { intros [= <-]. by exists []. }
  destruct (byte_val b0 =? 89); [|intros [= <-]; by exists [b0]].
  destruct (Serial2.peek rx =? 89); [|intros [= <-]; by exists [b0]].
  destruct rx as [|b1 [|b2 [|b3 [|b4 [|b5 [|b6 [|b7 [|b8 rx]]]]]]]]; simpl;
    repeat match goal with
           | |- context [if ?c then _ else _] => destruct c
           end;
    intros [= <-];
    first [ by eexists [_] | by eexists [_; _] | by eexists [_; _; _]
          | by eexists [_; _; _; _] | by eexists [_; _; _; _; _]
          | by eexists [_; _; _; _; _; _] | by eexists [_; _; _; _; _; _; _]
          | by eexists [_; _; _; _; _; _; _; _] | by eexists [_; _; _; _; _; _; _; _; _] ].
Qed.

Lemma flush_empty rx : Serial2.flush rx = [].
Proof. induction rx; auto. Qed.

Lemma wifi_frame_range rx d rx' :
  WifiController.frame rx = (Some d, rx') → 0 < d < 1200.
Proof.
  unfold WifiController.frame.
  destruct (Serial2.read rx) as [c rx0].
  destruct (c =? 89); [|discriminate].
  destruct (Serial2.peek rx0 =? 89); [|discriminate].
  destruct (Serial2.read rx0) as [? rx1].
  destruct (Serial2.read rx1) as [distL rx2].
  destruct (Serial2.read rx2) as [distH rx3].
  destruct ((_ >? 0) && (_ <? 1200)) eqn:Hr; [|discriminate].
  intros [= <- _]. apply andb_prop in Hr as [?%Z.gtb_lt ?%Z.ltb_lt]. lia.
Qed.

Lemma ble_frame_range rx d rx' :
  BleController.frame rx = (Some d, rx') → 0 < d < 1200.
Proof.
  unfold BleController.frame.
  destruct (Serial2.read rx) as [c rx0].
  destruct (c =? 89); [|discriminate].
  destruct (Serial2.peek rx0 =? 89); [|discriminate].
  repeat match goal with
         | |- context [Serial2.read ?r] => destruct (Serial2.read r) as [? ?]
         end.
  destruct (Z.land _ 255 =? _); [|discriminate].
  destruct ((_ >? 0) && (_ <? 1200)) eqn:Hr; [|discriminate].
  intros [= <- _]. apply andb_prop in Hr as [?%Z.gtb_lt ?%Z.ltb_lt]. lia.
Qed.

(** The BLE controller returns a distance other than the sentinel only
    from nine consecutive bytes of the stream that start with both sync
    bytes and end in a matching checksum. *)
Lemma ble_decoder_checksum stale start polls d :
  BleController.getRobustLidarDistance stale start polls = Some d →
  d = 999 ∨ ∃ f, window f (arrivals polls) ∧ accepted f d.
Proof.
  unfold BleController.getRobustLidarDistance. rewrite flush_empty.
  intros H.
  apply (read_loop_window 50 BleController.frame start accepted polls
           ble_frame_accepts ble_frame_drops) in H.
  exact H.
Qed.

(** A stream in which no nine consecutive bytes form a frame with a
    matching checksum makes the BLE controller return the sentinel, as soon
    as its 50 ms budget has run out. *)
Lemma ble_decoder_corrupted stale start polls :
  (∀ f, window f (arrivals polls) → length f = 9%nat → synced f = true →
        checksum_ok f = false) →
  Exists (timed_out 50 start) polls →
  BleController.getRobustLidarDistance stale start polls = Some 999.
Proof.
  intros Hbad Hto.
  destruct (read_loop_returns 50 BleController.frame start polls
              (Serial2.flush stale) Hto) as [d Hd].
  fold (BleController.getRobustLidarDistance stale start polls) in Hd.
  rewrite Hd. f_equal.
  destruct (ble_decoder_checksum _ _ _ _ Hd) as [->|(f & Hw & Hlen & Hs & Hck & _)];
    [done|].
  rewrite (Hbad f Hw Hlen Hs) in Hck. discriminate.
Qed.

(** A noise byte, then a good frame split over two polls. *)
Example ble_decoder_reads_frame :
  BleController.getRobustLidarDistance [Byte.x59] 0
    [Poll 0 [Byte.x07; Byte.x59; Byte.x59; Byte.x32]; Poll 1 [];
     Poll 2 [Byte.x00; Byte.x00; Byte.x00; Byte.x00; Byte.x00; Byte.xe4];
     Poll 3 []; Poll 50 []]
  = Some 50 ∧
  checksum_ok good_frame = true ∧ frame_distance good_frame = 50.
Proof. repeat split; vm_compute; reflexivity. Qed.

(** C3 (main.ino): the Wi-Fi controller's decoder consumes the five bytes
    after the distance without looking at them, so a frame with a wrong
    checksum byte yields its distance; on the same observations the BLE
    controller's decoder rejects the frame and returns the sentinel. *)
Theorem wifi_decoder_accepts_corrupted_frame :
  checksum_ok corrupted_frame = false ∧
  WifiController.getRobustLidarDistance [] 0
    [Poll 0 corrupted_frame; Poll 200 []] = Some 50 ∧
  BleController.getRobustLidarDistance [] 0
    [Poll 0 corrupted_frame; Poll 200 []] = Some 999.
Proof. repeat split; vm_compute; reflexivity. Qed.

(** A distance above the threshold never gets past the distance check. *)
Lemma validate_distance_gate now body d dist :
  vb_distanceCm body = Some dist → DISTANCE_THRESHOLD < dist →
  (run (validate now body) d).2 ≠ VGranted.
Proof.
  intros Hd Hlt. unfold validate. rewrite Hd. branches; try discriminate.
  zbool. lia.
Qed.




(** * Properties of the validation service *)

(** [includes] is a substring test, not a membership test on a list of
    door ids. *)
Example includes_examples :
  includes "LAB_968,LAB_969" "LAB_969" = true ∧ includes "LAB_968" "LAB_9" = true ∧
  includes "D1" "D10" = false ∧ includes "" "D1" = false.
Proof. repeat split; reflexivity. Qed.

Lemma truthy_Some s : s ≠ "" → truthy (Some s) = true.
Proof. intros H. simpl. by apply String.eqb_neq in H as ->. Qed.

Lemma truthy_inv field : truthy field = true → ∃ s, field = Some s ∧ s ≠ "".
Proof.
  destruct field as [s|]; [|discriminate]. simpl.
  destruct (String.eqb s "") eqn:E; [discriminate|].
  apply String.eqb_neq in E. eauto.
Qed.

Lemma state_of_commit v token d entry :
  short_tokens d !! token = Some entry →
  state_of token (commit v token d) = Some v.
Proof.
  intros H. unfold state_of, commit. simpl.
  rewrite lookup_alter_eq, H. reflexivity.
Qed.

(** The order of the checks, with the permission test taken as the code
    has it ([canAccess], a substring test): for a known, unexpired, pending
    token whose credential exists, the checks run in the order permission,
    signal, distance; a failing check commits Denied with its own reason
    and passing all three commits Granted. *)
Theorem validate_check_order now body d token doorId entry user :
  vb_token body = Some token → token ≠ "" →
  vb_doorId body = Some doorId → doorId ≠ "" →
  short_tokens d !! token = Some entry →
  now < s_expires_at entry →
  used entry = 0 →
  enrollments d !! enrollment_token entry = Some user →
  (canAccess user doorId = false →
     run (validate now body) d = (commit 2 token d, VDenied "insufficient_permissions")) ∧
  (canAccess user doorId = true →
     ∀ rssi, vb_rssi body = Some rssi → rssi < -70 →
     run (validate now body) d = (commit 2 token d, VDenied "rssi_too_weak")) ∧
  (canAccess user doorId = true →
     (∀ rssi, vb_rssi body = Some rssi → -70 ≤ rssi) →
     ∀ distanceCm, vb_distanceCm body = Some distanceCm → 90 < distanceCm →
     run (validate now body) d = (commit 2 token d, VDenied "distance_too_far")) ∧
  (canAccess user doorId = true →
     (∀ rssi, vb_rssi body = Some rssi → -70 ≤ rssi) →
     (∀ distanceCm, vb_distanceCm body = Some distanceCm → distanceCm ≤ 90) →
     run (validate now body) d = (commit 1 token d, VGranted)) ∧
  state_of token (commit 2 token d) = Some 2 ∧
  state_of token (commit 1 token d) = Some 1.
Proof.
  intros Htok Htne Hdoor Hdne Hentry Hexp Hused Huser.
  assert (run (validate now body) d =
          if negb (canAccess user doorId) then
            (commit 2 token d, VDenied "insufficient_permissions")
          else if match vb_rssi body with
                  | Some rssi => rssi <? RSSI_THRESHOLD
                  | None => false
                  end then (commit 2 token d, VDenied "rssi_too_weak")
          else if match vb_distanceCm body with
                  | Some distanceCm => distanceCm >? DISTANCE_THRESHOLD
                  | None => false
                  end then (commit 2 token d, VDenied "distance_too_far")
          else (commit 1 token d, VGranted)) as Hrun.
  { unfold validate, canAccess. rewrite Htok, Hdoor, !truthy_Some by done. simpl.
    rewrite Hentry.
    destruct (s_expires_at entry <=? now) eqn:E; [zbool; lia|].
    rewrite Hused. simpl. rewrite Huser.
    repeat match goal with
           | |- context [if ?c then _ else _] => destruct c
           end; reflexivity. }
  rewrite Hrun. unfold RSSI_THRESHOLD, DISTANCE_THRESHOLD.
  repeat split.
  - by intros ->.
  - intros -> rssi -> Hr. simpl. apply Z.ltb_lt in Hr. by rewrite Hr.
  - intros -> Hsig dist -> Hd. simpl.
    destruct (vb_rssi body) as [rssi|].
    + specialize (Hsig rssi eq_refl). apply Z.ltb_ge in Hsig. rewrite Hsig.
      rewrite Z.gtb_ltb. apply Z.ltb_lt in Hd. by rewrite Hd.
    + rewrite Z.gtb_ltb. apply Z.ltb_lt in Hd. by rewrite Hd.
  - intros -> Hsig Hdist. simpl.
    destruct (vb_rssi body) as [rssi|], (vb_distanceCm body) as [dist|];
      repeat match goal with
             | H : ∀ x, Some ?y = Some x → _ |- _ => specialize (H y eq_refl)
             end;
      rewrite ?Z.gtb_ltb;
      repeat match goal with
             | H : -70 ≤ ?r |- _ => apply Z.ltb_ge in H; rewrite H
             | H : ?r ≤ 90 |- _ => apply Z.ltb_ge in H; rewrite H
             end; reflexivity.
  - by eapply state_of_commit.
  - by eapply state_of_commit.
Qed.

(** *** What each operation does to [short_tokens] *)

Lemma enroll_short_tokens A now body d :
  short_tokens (run (enroll A now body) d).1 = short_tokens d.
Proof. unfold enroll. branches; reflexivity. Qed.

Lemma revoke_short_tokens A studentId adminSecret d :
  short_tokens (run (revoke_enrollment A studentId adminSecret) d).1 = short_tokens d.
Proof. unfold revoke_enrollment. branches; reflexivity. Qed.

Lemma check_status_tables token d : (run (check_status token) d).1 = d.
Proof. unfold check_status. branches; reflexivity. Qed.

Lemma delete_identities_short_tokens ts : ∀ d,
  short_tokens (run (delete_identities ts (Respond tt)) d).1 = short_tokens d.
Proof. induction ts as [|t ts IH]; intros d; simpl; [done|]. by rewrite IH. Qed.

Lemma sweep_enrollments_short_tokens time d :
  short_tokens (run (cleanupEnrollmentTokens time) d).1 = short_tokens d.
Proof.
  unfold cleanupEnrollmentTokens. simpl.
  destruct (0 <? _); simpl; [|done]. by rewrite delete_identities_short_tokens.
Qed.

Lemma sweep_tokens_lookup time d t :
  short_tokens (run (cleanupExpiredTokens time) d).1 !! t = None ∨
  short_tokens (run (cleanupExpiredTokens time) d).1 !! t = short_tokens d !! t.
Proof.
  simpl.
  destruct (filter _ (short_tokens d) !! t) as [row|] eqn:E; [|by left].
  right. by apply map_lookup_filter_Some in E as [-> _].
Qed.

Lemma request_token_lookup now tokenStr enrollmentToken d t :
  tokenStr ≠ t →
  short_tokens (run (request_token now tokenStr enrollmentToken) d).1 !! t
  = short_tokens d !! t.
Proof.
  intros Hne. unfold request_token. branches; try reflexivity.
  by rewrite lookup_insert_ne.
Qed.

(** POST /validate leaves the rows of every other token alone. *)
Lemma validate_lookup_ne now body d t :
  vb_token body ≠ Some t →
  short_tokens (run (validate now body) d).1 !! t = short_tokens d !! t.
Proof.
  intros Hne. unfold validate.
  destruct (truthy (vb_token body)) eqn:Ht; simpl; [|done].
  apply truthy_inv in Ht as (tok & Htok & _). rewrite Htok in *. simpl.
  assert (tok ≠ t) by congruence.
  branches; try reflexivity;
    first [by rewrite lookup_delete_ne | by rewrite lookup_alter_ne].
Qed.

(** A request without a token or a door id is answered 400 and changes
    nothing. *)
Lemma validate_malformed now body d :
  truthy (vb_token body) && truthy (vb_doorId body) = false →
  ∃ e, run (validate now body) d = (d, VBadRequest e).
Proof.
  unfold validate.
  destruct (truthy (vb_token body)); simpl; [|eauto].
  destruct (truthy (vb_doorId body)); simpl; [discriminate|eauto].
Qed.

(** The first half of POST /validate, before the credential is looked up. *)
Lemma validate_lookup now body d t :
  vb_token body = Some t → t ≠ "" → truthy (vb_doorId body) = true →
  run (validate now body) d =
  match short_tokens d !! t with
  | None => (d, VDenied "unknown_or_expired")
  | Some row =>
      if s_expires_at row <=? now then (set_short_tokens (delete t) d, VDenied "expired")
      else if used row =? 1 then (d, VDenied "already_used")
      else if used row =? 2 then (d, VDenied "already_denied")
      else run (validate now body) d
  end.
Proof.
  intros Htok Hne Hdoor.
  destruct (short_tokens d !! t) as [row|] eqn:Hrow.
  - destruct (s_expires_at row <=? now) eqn:He;
      [|destruct (used row =? 1) eqn:H1; [|destruct (used row =? 2) eqn:H2; [|done]]];
      unfold validate; rewrite Htok, Hdoor, truthy_Some by done; simpl;
      rewrite Hrow, He, ?H1, ?H2; reflexivity.
  - unfold validate. rewrite Htok, Hdoor, truthy_Some by done. simpl.
    by rewrite Hrow.
Qed.

(** A grant comes from a pending, unexpired row and commits it. *)
Lemma validate_granted now body d :
  (run (validate now body) d).2 = VGranted →
  ∃ t row, vb_token body = Some t ∧ short_tokens d !! t = Some row ∧
           now < s_expires_at row ∧ used row ≠ 1 ∧ used row ≠ 2 ∧
           (run (validate now body) d).1 = commit 1 t d.
Proof.
  unfold validate.
  destruct (truthy (vb_token body)) eqn:Ht; simpl; [|discriminate].
  apply truthy_inv in Ht as (t & Htok & _). rewrite Htok. simpl.
  destruct (truthy (vb_doorId body)); simpl; [|discriminate].
  destruct (short_tokens d !! t) as [row|] eqn:Hrow; [|discriminate].
  destruct (s_expires_at row <=? now) eqn:He; [discriminate|].
  destruct (used row =? 1) eqn:H1; [discriminate|].
  destruct (used row =? 2) eqn:H2; [discriminate|].
  intros Hg. exists t, row. zbool. repeat split; auto with lia.
  revert Hg. branches; try discriminate. reflexivity.
Qed.

(** *** A decided token stays decided *)

Section Settled.
Variable ADMIN_SECRET : option string.
Variable t : string.
Variable row0 : short_token.
Hypothesis terminal : used row0 = 1 ∨ used row0 = 2.

Lemma validate_settled now body d :
  settled t row0 d → settled t row0 (run (validate now body) d).1.
Proof using terminal.
  intros Hs. unfold settled.
  destruct (decide (vb_token body = Some t)) as [Htok|Hne];
    [|by rewrite validate_lookup_ne].
  destruct (truthy (vb_token body) && truthy (vb_doorId body)) eqn:Hwf.
  - apply andb_prop in Hwf as [Ht Hdoor].
    apply truthy_inv in Ht as (t' & Htok' & Hne).
    assert (t' = t) as -> by congruence.
    rewrite (validate_lookup now body d t) by done.
    destruct Hs as [Hs|Hs]; rewrite Hs; [|by right].
    destruct (s_expires_at row0 <=? now); simpl.
    { right. apply lookup_delete_eq. }
    destruct terminal as [H|H]; rewrite H; simpl; by left.
  - destruct (validate_malformed now body d Hwf) as [e ->]. exact Hs.
Qed.

Lemma serve_settled r d :
  ¬ draws t r → settled t row0 d → settled t row0 (serve ADMIN_SECRET r d).
Proof using terminal.
  intros Hdraw Hs. unfold settled. destruct r as [| | | | | |]; unfold serve.
  - by rewrite enroll_short_tokens.
  - by rewrite request_token_lookup.
  - by apply validate_settled.
  - by rewrite revoke_short_tokens.
  - by rewrite check_status_tables.
  - destruct (sweep_tokens_lookup time d t) as [->| ->]; [by right|done].
  - by rewrite sweep_enrollments_short_tokens.
Qed.

Lemma serve_all_settled rs : ∀ d,
  Forall (λ r, ¬ draws t r) rs → settled t row0 d →
  settled t row0 (serve_all ADMIN_SECRET rs d).
Proof using terminal.
  induction rs as [|r rs IH]; intros d Hrs Hs; [done|].
  inversion Hrs; subst. simpl. apply IH; [done|]. by apply serve_settled.
Qed.
End Settled.

Lemma validate_denied now body d t :
  vb_token body = Some t →
  commits_denied (run (validate now body) d).2 →
  state_of t (run (validate now body) d).1 = Some 2.
Proof.
  intros Htok. unfold validate. rewrite Htok. unfold commits_denied, state_of.
  branches; try (intros [H|[H|[H|H]]]; discriminate H); intros _;
    rewrite lookup_alter_eq;
    match goal with H : short_tokens d !! _ = Some _ |- _ => by rewrite H end.
Qed.

Lemma state_of_Some t d v :
  state_of t d = Some v → ∃ row, short_tokens d !! t = Some row ∧ used row = v.
Proof.
  unfold state_of. destruct (short_tokens d !! t) as [row|]; [|discriminate].
  intros [= <-]. eauto.
Qed.

Lemma validate_granted_state now body d t :
  vb_token body = Some t →
  (run (validate now body) d).2 = VGranted →
  state_of t (run (validate now body) d).1 = Some 1.
Proof.
  intros Htok Hg.
  destruct (validate_granted now body d Hg) as (t' & row & Htok' & Hrow & _ & _ & _ & ->).
  assert (t' = t) as -> by congruence. by eapply state_of_commit.
Qed.

(** C1, as the code has it: two validate calls on one token, with any
    other requests in between that do not issue the same token string
    again, never both grant.  A call that grants leaves the row at used = 1
    and a call that denies for revocation, permissions, signal or distance
    leaves it at used = 2.  From then on the row is never modified, only
    deleted, and a later call on the token is rejected: with "expired"
    (deleting the row) once the expiry has passed, otherwise with
    "already_used" or "already_denied", and with "unknown_or_expired"
    after the row is gone. *)
Theorem validate_at_most_once ADMIN_SECRET d0 now1 body1 rs now2 body2 t :
  vb_token body1 = Some t → vb_token body2 = Some t →
  Forall (λ r, ¬ draws t r) rs →
  let d1 := (run (validate now1 body1) d0).1 in
  let r1 := (run (validate now1 body1) d0).2 in
  let d2 := serve_all ADMIN_SECRET rs d1 in
  let d3 := (run (validate now2 body2) d2).1 in
  let r2 := (run (validate now2 body2) d2).2 in
  (r1 = VGranted → r2 ≠ VGranted) ∧
  (r1 = VGranted → state_of t d1 = Some 1) ∧
  (commits_denied r1 → state_of t d1 = Some 2) ∧
  ∀ row, short_tokens d1 !! t = Some row → used row = 1 ∨ used row = 2 →
    r2 ≠ VGranted ∧
    (short_tokens d2 !! t = Some row ∨ short_tokens d2 !! t = None) ∧
    (short_tokens d3 !! t = Some row ∨ short_tokens d3 !! t = None) ∧
    (t ≠ "" → truthy (vb_doorId body2) = true →
     (short_tokens d2 !! t = None → d3 = d2 ∧ r2 = VDenied "unknown_or_expired") ∧
     (short_tokens d2 !! t = Some row → s_expires_at row ≤ now2 →
        short_tokens d3 !! t = None ∧ r2 = VDenied "expired") ∧
     (short_tokens d2 !! t = Some row → now2 < s_expires_at row →
        d3 = d2 ∧
        r2 = VDenied (if used row =? 1 then "already_used" else "already_denied"))).
Proof.
  intros Htok1 Htok2 Hrs d1 r1 d2 d3 r2.
  assert (∀ row, short_tokens d1 !! t = Some row → used row = 1 ∨ used row = 2 →
            r2 ≠ VGranted ∧ settled t row d2 ∧ settled t row d3) as Hdecided.
  { intros row Hrow Hterm.
    assert (settled t row d2) as Hs2.
    { apply serve_all_settled; [done..|]. by left. }
    split; [|split; [done|by apply validate_settled]].
    intros Hg. destruct (validate_granted now2 body2 d2 Hg)
      as (t' & row' & Htok' & Hrow' & _ & Hn1 & Hn2 & _).
    assert (t' = t) as -> by congruence.
    destruct Hs2 as [Hs2|Hs2]; rewrite Hs2 in Hrow'; [|discriminate].
    injection Hrow' as <-. lia. }
  split; [|split; [by apply validate_granted_state|split; [by apply validate_denied|]]].
  { intros Hg. destruct (state_of_Some t d1 1) as (row & Hrow & Hu).
    { by apply validate_granted_state. }
    apply (Hdecided row Hrow). by left. }
  intros row Hrow Hterm. destruct (Hdecided row Hrow Hterm) as (Hng & Hs2 & Hs3).
  split; [done|]. split; [done|]. split; [done|].
  intros Hne Hdoor. subst d3 r2.
  rewrite (validate_lookup now2 body2 d2 t) by done.
  split; [|split].
  - by intros ->.
  - intros -> He. apply Z.leb_le in He. rewrite He. simpl. split; [|done].
    apply lookup_delete_eq.
  - intros -> He. apply Z.leb_gt in He. rewrite He.
    destruct Hterm as [H|H]; rewrite H; by simpl.
Qed.

(** C1 as stated fails: T1 is granted at time 200 and committed used = 1;
    the next validate call arrives at 60100, when T1 has expired, and is
    rejected with "expired", not "already_used", and the row is deleted. *)
Lemma validate_after_expiry_not_already_used :
  (run (validate 200 demo_body) demo_db).2 = VGranted ∧
  state_of "T1" demo_granted = Some 1 ∧
  (run (validate 60100 demo_body) demo_granted).2 = VDenied "expired" ∧
  (run (validate 60100 demo_body) demo_granted).2 ≠ VDenied "already_used" ∧
  state_of "T1" (run (validate 60100 demo_body) demo_granted).1 = None.
Proof. repeat split; try (vm_compute; reflexivity). vm_compute. discriminate. Qed.

Lemma validate_at_most_once_witness :
  (vb_token demo_body = Some "T1" ∧ vb_token demo_body = Some "T1" ∧
   Forall (λ r, ¬ draws "T1" r) [GetCheckStatus (Some "T1"); SweepTokens 300]) ∧
  (run (validate 400 demo_body)
     (serve_all None [GetCheckStatus (Some "T1"); SweepTokens 300] demo_granted)).2
  ≠ VGranted.
Proof.
  assert (Forall (λ r, ¬ draws "T1" r) [GetCheckStatus (Some "T1"); SweepTokens 300])
    as Hrs.
  { repeat constructor; simpl; tauto. }
  split; [repeat split; [reflexivity..|exact Hrs]|].
  apply (validate_at_most_once None demo_db 200 demo_body
           [GetCheckStatus (Some "T1"); SweepTokens 300] 400 demo_body "T1"
           eq_refl eq_refl Hrs).
  vm_compute. reflexivity.
Defined.

(** *** A deleted token stays deleted *)

Lemma validate_absent now body d t :
  short_tokens d !! t = None → short_tokens (run (validate now body) d).1 !! t = None.
Proof.
  intros Habs.
  destruct (decide (vb_token body = Some t)) as [Htok|Hne];
    [|by rewrite validate_lookup_ne].
  destruct (truthy (vb_token body) && truthy (vb_doorId body)) eqn:Hwf.
  - apply andb_prop in Hwf as [Ht Hdoor].
    apply truthy_inv in Ht as (t' & Htok' & Hne).
    assert (t' = t) as -> by congruence.
    rewrite (validate_lookup now body d t) by done. by rewrite Habs.
  - by destruct (validate_malformed now body d Hwf) as [e ->].
Qed.

Lemma serve_all_absent ADMIN_SECRET t rs : ∀ d,
  Forall (λ r, ¬ draws t r) rs → short_tokens d !! t = None →
  short_tokens (serve_all ADMIN_SECRET rs d) !! t = None.
Proof.
  induction rs as [|r rs IH]; intros d Hrs Habs; [done|].
  inversion Hrs as [|?? Hdraw Hrs']; subst. simpl. apply IH; [done|].
  destruct r as [| | | | | |]; unfold serve.
  - by rewrite enroll_short_tokens.
  - by rewrite request_token_lookup.
  - by apply validate_absent.
  - by rewrite revoke_short_tokens.
  - by rewrite check_status_tables.
  - destruct (sweep_tokens_lookup time d t) as [->| ->]; done.
  - by rewrite sweep_enrollments_short_tokens.
Qed.

Lemma check_status_lookup t d :
  t ≠ "" →
  (run (check_status (Some t)) d).2 =
  match short_tokens d !! t with
  | None => SStatus "expired"
  | Some entry =>
      if used entry =? 1 then SStatus "granted"
      else if used entry =? 2 then SStatus "denied"
      else SStatus "pending"
  end.
Proof.
  intros Hne. unfold check_status. rewrite truthy_Some by done. simpl.
  destruct (short_tokens d !! t) as [entry|]; [|done].
  by destruct (used entry =? 1), (used entry =? 2).
Qed.

(** C6, as the code has it: validate answers a token past its expiry with
    "expired" and deletes the row in the same call; from then on, whatever
    requests follow (none of them issuing the same token string again), the
    row is absent, a status poll answers "expired" and validate answers
    "unknown_or_expired".  The status poll itself never compares the
    expiry: while the row of a pending token is still stored, the poll
    answers "pending". *)
Theorem expired_token_purged ADMIN_SECRET d now body t row rs :
  vb_token body = Some t → t ≠ "" → truthy (vb_doorId body) = true →
  short_tokens d !! t = Some row → s_expires_at row ≤ now →
  Forall (λ r, ¬ draws t r) rs →
  let d1 := (run (validate now body) d).1 in
  let d2 := serve_all ADMIN_SECRET rs d1 in
  run (validate now body) d = (set_short_tokens (delete t) d, VDenied "expired") ∧
  short_tokens d1 !! t = None ∧
  short_tokens d2 !! t = None ∧
  (run (check_status (Some t)) d2).2 = SStatus "expired" ∧
  (∀ now' body', vb_token body' = Some t → truthy (vb_doorId body') = true →
     run (validate now' body') d2 = (d2, VDenied "unknown_or_expired")) ∧
  (used row = 0 → (run (check_status (Some t)) d).2 = SStatus "pending").
Proof.
  intros Htok Hne Hdoor Hrow He Hrs d1 d2.
  assert (run (validate now body) d
          = (set_short_tokens (delete t) d, VDenied "expired")) as Hrun.
  { rewrite (validate_lookup now body d t), Hrow by done.
    apply Z.leb_le in He. by rewrite He. }
  assert (short_tokens d1 !! t = None) as H1.
  { subst d1. rewrite Hrun. apply lookup_delete_eq. }
  assert (short_tokens d2 !! t = None) as H2 by by apply serve_all_absent.
  repeat split; try done.
  - by rewrite check_status_lookup, H2.
  - intros now' body' Htok' Hdoor'.
    by rewrite (validate_lookup now' body' d2 t), H2.
  - intros Hu. by rewrite check_status_lookup, Hrow, Hu.
Qed.

(** C6 as stated fails: T1 expired at 60100 and is still pending; at time
    70000 validate would answer "expired", yet the status poll, which is
    the next read, answers "pending". *)
Lemma status_poll_after_expiry_pending :
  short_tokens demo_db !! "T1" = Some (ShortToken "C1" 100 60100 0) ∧
  60100 ≤ 70000 ∧
  (run (validate 70000 demo_body) demo_db).2 = VDenied "expired" ∧
  run (check_status (Some "T1")) demo_db = (demo_db, SStatus "pending").
Proof. repeat split; try (vm_compute; reflexivity). vm_compute. discriminate. Qed.

Lemma expired_token_purged_witness :
  (vb_token demo_body = Some "T1" ∧ "T1" ≠ "" ∧ truthy (vb_doorId demo_body) = true ∧
   short_tokens demo_db !! "T1" = Some (ShortToken "C1" 100 60100 0) ∧
   s_expires_at (ShortToken "C1" 100 60100 0) ≤ 70000 ∧
   Forall (λ r, ¬ draws "T1" r) [SweepTokens 70001]) ∧
  (run (check_status (Some "T1"))
     (serve_all None [SweepTokens 70001] (run (validate 70000 demo_body) demo_db).1)).2
  = SStatus "expired".
Proof.
  assert (Forall (λ r, ¬ draws "T1" r) [SweepTokens 70001]) as Hrs.
  { repeat constructor; simpl; tauto. }
  assert (s_expires_at (ShortToken "C1" 100 60100 0) ≤ 70000) as He by (simpl; lia).
  assert ("T1" ≠ "") as Hne by discriminate.
  split; [repeat split; first [reflexivity | assumption]|].
  apply (expired_token_purged None demo_db 70000 demo_body "T1"
           (ShortToken "C1" 100 60100 0) [SweepTokens 70001]
           eq_refl Hne eq_refl eq_refl He Hrs).
Defined.

Lemma validate_check_order_witness :
  (vb_token demo_body = Some "T1" ∧ "T1" ≠ "" ∧
   vb_doorId demo_body = Some "D1" ∧ "D1" ≠ "" ∧
   short_tokens demo_db !! "T1" = Some (ShortToken "C1" 100 60100 0) ∧
   200 < s_expires_at (ShortToken "C1" 100 60100 0) ∧
   used (ShortToken "C1" 100 60100 0) = 0 ∧
   enrollments demo_db !! enrollment_token (ShortToken "C1" 100 60100 0)
   = Some (Enrollment "D1" 0 1000000)) ∧
  run (validate 200 demo_body) demo_db = (commit 1 "T1" demo_db, VGranted).
Proof.
  assert ("T1" ≠ "") as Ht by discriminate.
  assert ("D1" ≠ "") as Hd by discriminate.
  assert (200 < s_expires_at (ShortToken "C1" 100 60100 0)) as He by (simpl; lia).
  split; [repeat split; first [reflexivity | assumption]|].
  destruct (validate_check_order 200 demo_body demo_db "T1" "D1"
              (ShortToken "C1" 100 60100 0) (Enrollment "D1" 0 1000000)
              eq_refl Ht eq_refl Hd eq_refl He eq_refl eq_refl)
    as (_ & _ & _ & Hgrant & _).
  apply Hgrant.
  - reflexivity.
  - intros rssi [= <-]. lia.
  - intros distanceCm [= <-]. lia.
Defined.

(** C4: the permission test is [perms.includes(doorId)] on the permission
    string, which holds for every substring of it.  The credential seeded
    for Alice lists the single door LAB_968 and is not the universal
    marker.  With readings that pass both thresholds, its pending token is
    granted for LAB_968 and denied "insufficient_permissions" for LAB_969,
    as the claim says; for door LAB_9, which the permission string does not
    list, the request is granted as well and the token committed used = 1
    instead of being denied "insufficient_permissions". *)
Theorem validate_grants_unlisted_door :
  permissions <$> enrollments alice_db !! "ALICE_ENROLLMENT_TOKEN" = Some "LAB_968" ∧
  run (validate 200 (relay "0123456789abcdef01" "LAB_968" (-60) 50)) alice_db
  = (commit 1 "0123456789abcdef01" alice_db, VGranted) ∧
  run (validate 200 (relay "0123456789abcdef01" "LAB_969" (-60) 50)) alice_db
  = (commit 2 "0123456789abcdef01" alice_db, VDenied "insufficient_permissions") ∧
  run (validate 200 (relay "0123456789abcdef01" "LAB_9" (-60) 50)) alice_db
  = (commit 1 "0123456789abcdef01" alice_db, VGranted) ∧
  state_of "0123456789abcdef01" (commit 1 "0123456789abcdef01" alice_db) = Some 1.
Proof. repeat split; vm_compute; reflexivity. Qed.

(** ** Revocation *)

(** C8: a successful revoke deletes the identity-map row of the student
    and the credential row that row names, and nothing else; a revoke that
    does not succeed changes nothing.  [short_tokens] and [rate_limits] are
    never touched, so a pending, unexpired short token of the revoked
    credential is still stored, and the next validate call on it finds no
    credential, answers "access_revoked" and commits the token Denied. *)
Theorem revoke_keeps_short_tokens ADMIN_SECRET studentId adminSecret d :
  let d' := (run (revoke_enrollment ADMIN_SECRET studentId adminSecret) d).1 in
  let r := (run (revoke_enrollment ADMIN_SECRET studentId adminSecret) d).2 in
  short_tokens d' = short_tokens d ∧
  rate_limits d' = rate_limits d ∧
  (r ≠ ROk → d' = d) ∧
  (∀ sid credential,
     adminSecret = ADMIN_SECRET → studentId = Some sid → sid ≠ "" →
     identity_map d !! sid = Some credential →
     r = ROk ∧
     enrollments d' = delete credential (enrollments d) ∧
     identity_map d' = delete sid (identity_map d) ∧
     ∀ t entry now body,
       short_tokens d !! t = Some entry → enrollment_token entry = credential →
       used entry = 0 → now < s_expires_at entry →
       vb_token body = Some t → t ≠ "" → truthy (vb_doorId body) = true →
       run (validate now body) d' = (commit 2 t d', VDenied "access_revoked") ∧
       state_of t (commit 2 t d') = Some 2).
Proof.
  intros d' r. subst d' r. unfold revoke_enrollment.
  destruct (bool_decide (adminSecret = ADMIN_SECRET)) eqn:Hadm; simpl.
  2:{ do 3 (split; [done|]). intros ?? Heq. apply bool_decide_eq_false in Hadm. done. }
  destruct (truthy studentId) eqn:Hsid; simpl.
  2:{ do 3 (split; [done|]). intros sid ? _ -> Hne.
      by rewrite truthy_Some in Hsid. }
  apply truthy_inv in Hsid as (sid & -> & Hne). simpl.
  destruct (identity_map d !! sid) as [credential|] eqn:Hid; simpl.
  2:{ do 3 (split; [done|]). intros ?? _ [= <-] _. by rewrite Hid. }
  split; [done|]. split; [done|]. split; [done|].
  intros sid' credential' _ [= <-] _. rewrite Hid. intros [= <-].
  split; [done|]. split; [done|]. split; [done|].
  intros t entry now body Hentry Hcred Hused Hexp Htok Htne Hdoor.
  split; [|by eapply state_of_commit].
  unfold validate. rewrite Htok, Hdoor, truthy_Some by done. simpl.
  rewrite Hentry.
  destruct (s_expires_at entry <=? now) eqn:E; [zbool; lia|].
  rewrite Hused. simpl. rewrite Hcred, lookup_delete_eq. reflexivity.
Qed.

Lemma revoke_keeps_short_tokens_witness :
  (@None string = None ∧ Some "40000000" = Some "40000000" ∧ "40000000" ≠ "" ∧
   identity_map demo_db !! "40000000" = Some "C1") ∧
  run (validate 200 demo_body)
      (run (revoke_enrollment None (Some "40000000") None) demo_db).1
  = (commit 2 "T1" (run (revoke_enrollment None (Some "40000000") None) demo_db).1,
     VDenied "access_revoked").
Proof.
  assert ("40000000" ≠ "") as Hs by discriminate.
  assert ("T1" ≠ "") as Ht by discriminate.
  split; [repeat split; first [reflexivity | assumption]|].
  destruct (revoke_keeps_short_tokens None (Some "40000000") None demo_db)
    as (_ & _ & _ & H).
  destruct (H "40000000" "C1" eq_refl eq_refl Hs eq_refl) as (_ & _ & _ & Hv).
  apply (Hv "T1" (ShortToken "C1" 100 60100 0) 200 demo_body
            eq_refl eq_refl eq_refl);
    first [reflexivity | assumption | simpl; lia].
Defined.

(** C2, as the code has it: a token-issuance request for a credential
    whose expiry timestamp is strictly less than the current time is
    answered "enrollment_expired" and no table is touched, so no short
    token is created.  POST /validate never reads the credential's expiry:
    its answer is the same whatever expiry the credential rows carry. *)
Theorem expired_credential_issuance now tokenStr credential user d :
  credential ≠ "" → enrollments d !! credential = Some user →
  e_expires_at user < now →
  run (request_token now tokenStr (Some credential)) d
  = (d, TForbidden "enrollment_expired") ∧
  ∀ x now' body,
    (run (validate now' body) (set_enrollments (fmap (with_expiry x)) d)).2
    = (run (validate now' body) d).2.
Proof.
  intros Hne Huser Hexp. split.
  - unfold request_token. rewrite truthy_Some by done. simpl. rewrite Huser.
    apply Z.ltb_lt in Hexp. by rewrite Hexp.
  - intros x now' body. unfold validate.
    destruct (truthy (vb_token body)); simpl; [|done].
    destruct (truthy (vb_doorId body)); simpl; [|done].
    destruct (short_tokens d !! _) as [entry|]; [|done].
    destruct (s_expires_at entry <=? now'); [done|].
    destruct (used entry =? 1); [done|].
    destruct (used entry =? 2); [done|]. simpl.
    rewrite lookup_fmap.
    destruct (enrollments d !! enrollment_token entry) as [u|]; simpl; [|done].
    repeat match goal with
           | |- context [if ?c then _ else _] => destruct c; simpl
           end; reflexivity.
Qed.

(** C2 as stated fails: at time 2000 credential C2 has been expired for a
    second and its row is still stored; validate grants its short token. *)
Lemma validate_grants_for_expired_credential :
  enrollments expired_db !! "C2" = Some (Enrollment "ALL" 0 1000) ∧
  e_expires_at (Enrollment "ALL" 0 1000) ≤ 2000 ∧
  enrollment_token <$> short_tokens expired_db !! "T2" = Some "C2" ∧
  (run (validate 2000 (ValidateBody (Some "T2") (Some (-60)) (Some 50) (Some "D1")))
       expired_db).2 = VGranted.
Proof. repeat split; try (vm_compute; reflexivity). vm_compute. discriminate. Qed.

(** At the very instant of expiry the issuance test [expires_at < now]
    still lets the request through. *)
Example issuance_at_expiry_instant :
  (run (request_token 1000 "0123456789abcdef01" (Some "C2")) expired_db).2
  = TIssued "0123456789abcdef01" 61000.
Proof. vm_compute. reflexivity. Qed.

Lemma expired_credential_issuance_witness :
  ("C2" ≠ "" ∧ enrollments expired_db !! "C2" = Some (Enrollment "ALL" 0 1000) ∧
   e_expires_at (Enrollment "ALL" 0 1000) < 2000) ∧
  run (request_token 2000 "0123456789abcdef01" (Some "C2")) expired_db
  = (expired_db, TForbidden "enrollment_expired").
Proof.
  assert ("C2" ≠ "") as Hne by discriminate.
  assert (e_expires_at (Enrollment "ALL" 0 1000) < 2000) as He by (simpl; lia).
  split; [repeat split; first [reflexivity | assumption]|].
  apply (expired_credential_issuance 2000 "0123456789abcdef01" "C2"
           (Enrollment "ALL" 0 1000) expired_db Hne eq_refl He).
Defined.

(** ** Rate limiting *)

(** C7: admission for a known, unexpired credential.  While suspended the
    request is answered 429 and no table is written.  Otherwise the
    timestamps that are a full window old or older are dropped; with the
    maximum reached among the rest, the row becomes an empty list
    suspended until now + window and the answer is 429; otherwise the row
    becomes the kept timestamps followed by now, with the suspension
    marker reset to 0, and the short token is inserted pending and
    returned (the insertion needs the random string to be unused). *)
Theorem rate_limit_admission now tokenStr credential user d :
  credential ≠ "" → enrollments d !! credential = Some user →
  now ≤ e_expires_at user →
  let rateData := default (RateLimit [] 0) (rate_limits d !! credential) in
  let kept := filter (λ ts, ts > now - WINDOW_MS) (requests rateData) in
  let allowed := set_rate_limits (insert credential (RateLimit (kept ++ [now]) 0)) d in
  (∀ ts, ts ∈ kept ↔ ts ∈ requests rateData ∧ now - ts < WINDOW_MS) ∧
  (now < suspended_until rateData →
     run (request_token now tokenStr (Some credential)) d
     = (d, TRateLimited (suspended_until rateData))) ∧
  (suspended_until rateData ≤ now → MAX_REQUESTS ≤ Z.of_nat (length kept) →
     run (request_token now tokenStr (Some credential)) d
     = (set_rate_limits (insert credential (RateLimit [] (now + WINDOW_MS))) d,
        TRateLimited (now + WINDOW_MS))) ∧
  (suspended_until rateData ≤ now → Z.of_nat (length kept) < MAX_REQUESTS →
     rate_limits (run (request_token now tokenStr (Some credential)) d).1
     = <[credential := RateLimit (kept ++ [now]) 0]> (rate_limits d) ∧
     (short_tokens d !! tokenStr = None →
        run (request_token now tokenStr (Some credential)) d
        = (set_short_tokens
             (insert tokenStr (ShortToken credential now (now + SHORT_TOKEN_TTL_MS) 0))
             allowed,
           TIssued tokenStr (now + SHORT_TOKEN_TTL_MS))) ∧
     (is_Some (short_tokens d !! tokenStr) →
        run (request_token now tokenStr (Some credential)) d
        = (allowed, TInternalError))).
Proof.
  intros Hne Huser Hexp rateData kept allowed.
  assert ((e_expires_at user <? now) = false) as Hexp' by (apply Z.ltb_ge; lia).
  split; [|split; [|split]].
  - intros ts. subst kept. rewrite list_elem_of_filter. split; intros [? ?]; split; auto with lia.
  - intros Hs. unfold request_token. rewrite truthy_Some by done. simpl.
    rewrite Huser, Hexp'. simpl. fold rateData.
    rewrite Z.gtb_ltb. apply Z.ltb_lt in Hs. by rewrite Hs.
  - intros Hs Hmax. unfold request_token. rewrite truthy_Some by done. simpl.
    rewrite Huser, Hexp'. simpl. fold rateData.
    rewrite Z.gtb_ltb. apply Z.ltb_ge in Hs. rewrite Hs. fold kept.
    rewrite Z.geb_leb. apply Z.leb_le in Hmax. by rewrite Hmax.
  - intros Hs Hmax.
    assert (run (request_token now tokenStr (Some credential)) d =
            match short_tokens d !! tokenStr with
            | Some _ => (allowed, TInternalError)
            | None =>
                (set_short_tokens
                   (insert tokenStr
                      (ShortToken credential now (now + SHORT_TOKEN_TTL_MS) 0))
                   allowed,
                 TIssued tokenStr (now + SHORT_TOKEN_TTL_MS))
            end) as ->.
    { unfold request_token. rewrite truthy_Some by done. simpl.
      rewrite Huser, Hexp'. simpl. fold rateData.
      rewrite Z.gtb_ltb. apply Z.ltb_ge in Hs. rewrite Hs. fold kept.
      rewrite Z.geb_leb. apply Z.leb_gt in Hmax. rewrite Hmax. simpl.
      by destruct (short_tokens d !! tokenStr). }
    split; [by destruct (short_tokens d !! tokenStr)|].
    split; [by intros ->|]. by intros [? ->].
Qed.

Lemma rate_limit_admission_witness :
  ("C1" ≠ "" ∧ enrollments demo_db !! "C1" = Some (Enrollment "D1" 0 1000000) ∧
   200 ≤ e_expires_at (Enrollment "D1" 0 1000000)) ∧
  run (request_token 200 "0123456789abcdef01" (Some "C1")) demo_db
  = (set_short_tokens
       (insert "0123456789abcdef01" (ShortToken "C1" 200 (200 + SHORT_TOKEN_TTL_MS) 0))
       (set_rate_limits (insert "C1" (RateLimit [200] 0)) demo_db),
     TIssued "0123456789abcdef01" (200 + SHORT_TOKEN_TTL_MS)).
Proof.
  assert ("C1" ≠ "") as Hne by discriminate.
  assert (200 ≤ e_expires_at (Enrollment "D1" 0 1000000)) as He by (simpl; lia).
  split; [repeat split; first [reflexivity | assumption]|].
  destruct (rate_limit_admission 200 "0123456789abcdef01" "C1"
              (Enrollment "D1" 0 1000000) demo_db Hne eq_refl He)
    as (_ & _ & _ & Hallow).
  destruct (Hallow ltac:(vm_compute; discriminate) ltac:(vm_compute; reflexivity))
    as (_ & Hissue & _).
  apply Hissue. reflexivity.
Defined.

Example rate_limit_scenario :
  rate_limits three_issued !! "C1" = Some (RateLimit [1000; 2000; 3000] 0) ∧
  (run (request_token 4000 "dd" (Some "C1")) three_issued).2 = TRateLimited 184000 ∧
  rate_limits (run (request_token 4000 "dd" (Some "C1")) three_issued).1 !! "C1"
  = Some (RateLimit [] 184000) ∧
  run (request_token 5000 "ee" (Some "C1"))
      (run (request_token 4000 "dd" (Some "C1")) three_issued).1
  = ((run (request_token 4000 "dd" (Some "C1")) three_issued).1, TRateLimited 184000).
Proof. repeat split; vm_compute; reflexivity. Qed.

(** ** Enrollment *)

(** An enroll request whose credential key is already present is answered
    409 and changes nothing. *)
Lemma enroll_duplicate_credential ADMIN_SECRET now body credential row d :
  eb_adminSecret body = ADMIN_SECRET →
  eb_enrollmentToken body = Some credential → credential ≠ "" →
  truthy (eb_studentId body) = true →
  enrollments d !! credential = Some row →
  run (enroll ADMIN_SECRET now body) d
  = (d, EConflict "token or studentId already exists").
Proof.
  intros Hadm Htok Hne Hsid Hrow. unfold enroll.
  rewrite bool_decide_eq_true_2 by done.
  rewrite Htok, Hsid, truthy_Some by done. simpl. by rewrite Hrow.
Qed.

(** An enroll request with a new credential and a new student id inserts
    both rows. *)
Lemma enroll_fresh ADMIN_SECRET now body credential sid d :
  eb_adminSecret body = ADMIN_SECRET →
  eb_enrollmentToken body = Some credential → credential ≠ "" →
  eb_studentId body = Some sid → sid ≠ "" →
  enrollments d !! credential = None →
  identity_map d !! sid = None → token_taken credential (identity_map d) = false →
  run (enroll ADMIN_SECRET now body) d
  = (set_identity_map (insert sid credential)
       (set_enrollments
          (insert credential
             (Enrollment (perms_or_all (eb_permissions body)) now
                (expiry_or_default now (eb_expiresAt body)))) d),
     EOk).
Proof.
  intros Hadm Htok Hne Hsid Hsne Hrow Hid Htaken. unfold enroll.
  rewrite bool_decide_eq_true_2 by done.
  rewrite Htok, Hsid, !truthy_Some by done. simpl.
  rewrite Hrow. simpl. rewrite Hid, Htaken. reflexivity.
Qed.

(** C5: the two INSERTs of POST /enroll are separate statements.  When the
    student id is taken the second one fails and the answer is 409, but the
    credential row written by the first stays: C9 is stored without an
    identity-map row, can request short tokens, and cannot be revoked
    through any student id. *)
Theorem enroll_leaves_partial_enrollment :
  (run (enroll (Some "s3cret") 500 second_enrollment) demo_db).2
  = EConflict "token or studentId already exists" ∧
  enrollments half_enrolled !! "C9"
  = Some (Enrollment "ALL" 500 (500 + DEFAULT_ENROLLMENT_MS)) ∧
  token_taken "C9" (identity_map half_enrolled) = false ∧
  identity_map half_enrolled = identity_map demo_db ∧
  (run (request_token 600 "0123456789abcdef01" (Some "C9")) half_enrolled).2
  = TIssued "0123456789abcdef01" 60600.
Proof. repeat split; vm_compute; reflexivity. Qed.

(** ** Overlapping validate requests *)

(** C9: two validate requests for the pending token T1 are in flight; each
    SELECT completes before either UPDATE is sent.  Both read used = 0,
    both run [UPDATE short_tokens SET used = 1], and both are granted.  Run
    one after the other, the second is rejected. *)
Theorem overlapping_validates_both_granted :
  interleave [true; false; true; false]
    (validate 200 demo_body) (validate 200 demo_body) demo_db
  = (commit 1 "T1" demo_db, VGranted, VGranted) ∧
  interleave [] (validate 200 demo_body) (validate 200 demo_body) demo_db
  = (commit 1 "T1" demo_db, VGranted, VDenied "already_used").
Proof. split; vm_compute; reflexivity. Qed.

(** * Further properties of the validation service *)

(** ** What validate leaves alone *)

(** POST /validate writes nothing but the row of the token it is asked
    about: the three other tables are unchanged, the rows of other tokens
    are unchanged, no row is created, and a row that stays keeps its owner,
    its issue time and its expiry. *)
Theorem validate_touches_one_row now body d :
  enrollments (run (validate now body) d).1 = enrollments d ∧
  identity_map (run (validate now body) d).1 = identity_map d ∧
  rate_limits (run (validate now body) d).1 = rate_limits d ∧
  (∀ t, vb_token body ≠ Some t →
        short_tokens (run (validate now body) d).1 !! t = short_tokens d !! t) ∧
  (∀ t row', short_tokens (run (validate now body) d).1 !! t = Some row' →
     ∃ row, short_tokens d !! t = Some row ∧
            enrollment_token row' = enrollment_token row ∧
            s_created_at row' = s_created_at row ∧
            s_expires_at row' = s_expires_at row).
Proof.
  split; [|split; [|split; [|split]]].
  - unfold validate. branches; reflexivity.
  - unfold validate. branches; reflexivity.
  - unfold validate. branches; reflexivity.
  - intros t Hne. by apply validate_lookup_ne.
  - intros t row'.
    destruct (decide (vb_token body = Some t)) as [Htok|Hne].
    2:{ rewrite validate_lookup_ne by done. eauto. }
    unfold validate. rewrite Htok.
    branches; rewrite ?lookup_delete_eq, ?lookup_alter_eq;
      repeat match goal with
             | H : short_tokens d !! t = _ |- _ => rewrite ?H; clear H
             end;
      intros Hrow'; simplify_eq/=; eauto.
Qed.

Lemma validate_touches_one_row_witness :
  vb_token demo_body ≠ Some "T9" ∧
  short_tokens (run (validate 200 demo_body) demo_db).1 !! "T9"
  = short_tokens demo_db !! "T9".
Proof.
  assert (vb_token demo_body ≠ Some "T9") as Hne by discriminate.
  split; [exact Hne|].
  destruct (validate_touches_one_row 200 demo_body demo_db) as (_ & _ & _ & H & _).
  exact (H "T9" Hne).
Defined.

(** ** The status poll agrees with validate *)

(** The six ways a well-formed validate request ends. *)
Lemma validate_cases now body d t :
  vb_token body = Some t → t ≠ "" → truthy (vb_doorId body) = true →
  (short_tokens d !! t = None ∧
   run (validate now body) d = (d, VDenied "unknown_or_expired")) ∨
  ∃ row, short_tokens d !! t = Some row ∧
    ((s_expires_at row ≤ now ∧
      run (validate now body) d = (set_short_tokens (delete t) d, VDenied "expired")) ∨
     (now < s_expires_at row ∧ used row = 1 ∧
      run (validate now body) d = (d, VDenied "already_used")) ∨
     (now < s_expires_at row ∧ used row = 2 ∧
      run (validate now body) d = (d, VDenied "already_denied")) ∨
     (now < s_expires_at row ∧ used row ≠ 1 ∧ used row ≠ 2 ∧
      ((∃ r, commits_denied r ∧ run (validate now body) d = (commit 2 t d, r)) ∨
       run (validate now body) d = (commit 1 t d, VGranted)))).
Proof.
  intros Htok Hne Hdoor. rewrite (validate_lookup now body d t) by done.
  destruct (short_tokens d !! t) as [row|] eqn:Hrow; [right; exists row|by left].
  split; [done|].
  destruct (s_expires_at row <=? now) eqn:He; zbool; [by left|right].
  destruct (used row =? 1) eqn:H1; zbool; [by left|right].
  destruct (used row =? 2) eqn:H2; zbool; [by left|right].
  do 3 (split; [done|]).
  unfold validate, commits_denied. rewrite Htok, Hdoor, truthy_Some by done. simpl.
  rewrite Hrow. apply Z.leb_gt in He. apply Z.eqb_neq in H1, H2.
  rewrite He, H1, H2.
  branches; first [by right | left; eexists; split; [|reflexivity]; tauto].
Qed.

(** After POST /validate has answered a well-formed request for a token,
    GET /check-status for that token reports "granted" after a grant or
    "already_used", "expired" after "expired" or "unknown_or_expired", and
    "denied" after every other denial. *)
Theorem status_after_validate now body d t :
  vb_token body = Some t → t ≠ "" → truthy (vb_doorId body) = true →
  (run (check_status (Some t)) (run (validate now body) d).1).2
  = SStatus (status_for (run (validate now body) d).2).
Proof.
  intros Htok Hne Hdoor. rewrite check_status_lookup by done.
  destruct (validate_cases now body d t Htok Hne Hdoor)
    as [[Hrow ->]|(row & Hrow & [[_ ->]|[(_ & Hu & ->)|[(_ & Hu & ->)|
         (_ & Hu1 & Hu2 & [(r & Hr & ->)| ->])]]])]; simpl.
  - by rewrite Hrow.
  - by rewrite lookup_delete_eq.
  - by rewrite Hrow, Hu.
  - by rewrite Hrow, Hu.
  - rewrite lookup_alter_eq, Hrow. simpl.
    by destruct Hr as [->|[->|[->| ->]]].
  - by rewrite lookup_alter_eq, Hrow.
Qed.

Lemma status_after_validate_witness :
  (vb_token demo_body = Some "T1" ∧ "T1" ≠ "" ∧ truthy (vb_doorId demo_body) = true) ∧
  (run (check_status (Some "T1")) (run (validate 200 demo_body) demo_db).1).2
  = SStatus (status_for (run (validate 200 demo_body) demo_db).2).
Proof.
  assert ("T1" ≠ "") as Hne by discriminate.
  split; [repeat split; first [reflexivity | assumption]|].
  exact (status_after_validate 200 demo_body demo_db "T1" eq_refl Hne eq_refl).
Defined.

(** ** From issuance to the door *)

(** The decision of POST /validate on a pending, unexpired token whose
    credential is stored. *)
Lemma validate_decision now body d t doorId entry user :
  vb_token body = Some t → t ≠ "" →
  vb_doorId body = Some doorId → doorId ≠ "" →
  short_tokens d !! t = Some entry → now < s_expires_at entry →
  used entry ≠ 1 → used entry ≠ 2 →
  enrollments d !! enrollment_token entry = Some user →
  run (validate now body) d =
  if negb (canAccess user doorId) then
    (commit 2 t d, VDenied "insufficient_permissions")
  else if match vb_rssi body with
          | Some rssi => rssi <? RSSI_THRESHOLD
          | None => false
          end then (commit 2 t d, VDenied "rssi_too_weak")
  else if match vb_distanceCm body with
          | Some distanceCm => distanceCm >? DISTANCE_THRESHOLD
          | None => false
          end then (commit 2 t d, VDenied "distance_too_far")
  else (commit 1 t d, VGranted).
Proof.
  intros Htok Htne Hdoor Hdne Hentry Hexp Hu1 Hu2 Huser.
  unfold validate, canAccess. rewrite Htok, Hdoor, !truthy_Some by done. simpl.
  rewrite Hentry.
  apply Z.leb_gt in Hexp. apply Z.eqb_neq in Hu1, Hu2. rewrite Hexp, Hu1, Hu2.
  simpl. rewrite Huser.
  repeat match goal with
         | |- context [if ?c then _ else _] => destruct c
         end; reflexivity.
Qed.

(** What an answer with a token says about the request and the tables. *)
Lemma request_token_issued now tokenStr enrollmentToken d d1 token expiresAt :
  run (request_token now tokenStr enrollmentToken) d = (d1, TIssued token expiresAt) →
  token = tokenStr ∧ expiresAt = now + SHORT_TOKEN_TTL_MS ∧
  short_tokens d !! tokenStr = None ∧
  ∃ credential user row,
    enrollmentToken = Some credential ∧ credential ≠ "" ∧
    enrollments d !! credential = Some user ∧ now ≤ e_expires_at user ∧
    d1 = set_short_tokens
           (insert tokenStr (ShortToken credential now (now + SHORT_TOKEN_TTL_MS) 0))
           (set_rate_limits (insert credential row) d).
Proof.
  unfold request_token.
  destruct (truthy enrollmentToken) eqn:Ht; simpl; [|discriminate].
  apply truthy_inv in Ht as (credential & -> & Hne). simpl.
  destruct (enrollments d !! credential) as [user|] eqn:Huser; [|discriminate].
  destruct (e_expires_at user <? now) eqn:He; [discriminate|].
  simpl. destruct (short_tokens d !! tokenStr) eqn:Hfresh;
    repeat match goal with
           | |- context [if ?c then _ else _] => destruct c; simpl; try discriminate
           end.
  intros [= <- <- <-]. zbool. repeat split; try done.
  exists credential, user. eexists. repeat split; done.
Qed.

(** Every token the server hands out is new, pending and owned by the
    requesting credential; the status poll reports "pending"; validate
    answers "expired" from issue time + 60000 ms on, and before that it
    grants the first request whose door the credential covers and whose
    readings pass (RSSI absent or at least -70, distance absent or at most
    90). *)
Theorem issued_token_lifecycle now tokenStr enrollmentToken d d1 token expiresAt :
  run (request_token now tokenStr enrollmentToken) d = (d1, TIssued token expiresAt) →
  token ≠ "" →
  token = tokenStr ∧ expiresAt = now + 60000 ∧
  short_tokens d !! token = None ∧
  ∃ credential user,
    enrollmentToken = Some credential ∧
    enrollments d1 !! credential = Some user ∧
    short_tokens d1 !! token = Some (ShortToken credential now expiresAt 0) ∧
    (run (check_status (Some token)) d1).2 = SStatus "pending" ∧
    ∀ now' body doorId,
      vb_token body = Some token → vb_doorId body = Some doorId → doorId ≠ "" →
      (expiresAt ≤ now' →
         run (validate now' body) d1
         = (set_short_tokens (delete token) d1, VDenied "expired")) ∧
      (now' < expiresAt → canAccess user doorId = true →
         (∀ rssi, vb_rssi body = Some rssi → -70 ≤ rssi) →
         (∀ distanceCm, vb_distanceCm body = Some distanceCm → distanceCm ≤ 90) →
         run (validate now' body) d1 = (commit 1 token d1, VGranted)).
Proof.
  intros Hrun Hne.
  destruct (request_token_issued _ _ _ _ _ _ _ Hrun)
    as (-> & -> & Hfresh & credential & user & row & -> & Hcne & Huser & Hexp & ->).
  split; [done|]. split; [done|]. split; [done|].
  exists credential, user. split; [done|]. split; [done|].
  assert (short_tokens
            (set_short_tokens
               (insert tokenStr (ShortToken credential now (now + SHORT_TOKEN_TTL_MS) 0))
               (set_rate_limits (insert credential row) d)) !! tokenStr
          = Some (ShortToken credential now (now + SHORT_TOKEN_TTL_MS) 0)) as Hrow.
  { simpl. apply lookup_insert_eq. }
  split; [done|]. split.
  { rewrite check_status_lookup, Hrow by done. reflexivity. }
  intros now' body doorId Htok Hdoor Hdne. split.
  - intros Hlate.
    rewrite (validate_lookup now' body _ tokenStr), Hrow;
      [|done|done|by rewrite Hdoor, truthy_Some].
    simpl. apply Z.leb_le in Hlate. by rewrite Hlate.
  - intros Hearly Hperm Hsig Hdist.
    rewrite (validate_decision now' body _ tokenStr doorId _ user
               Htok Hne Hdoor Hdne Hrow); try done.
    rewrite Hperm. simpl. unfold RSSI_THRESHOLD, DISTANCE_THRESHOLD.
    destruct (vb_rssi body) as [rssi|], (vb_distanceCm body) as [dist|];
      repeat match goal with
             | H : ∀ x, Some ?y = Some x → _ |- _ => specialize (H y eq_refl)
             end;
      rewrite ?Z.gtb_ltb;
      repeat match goal with
             | H : -70 ≤ ?r |- _ => apply Z.ltb_ge in H; rewrite H
             | H : ?r ≤ 90 |- _ => apply Z.ltb_ge in H; rewrite H
             end; reflexivity.
Qed.

Lemma issued_token_lifecycle_witness :
  (run (request_token 200 "0123456789abcdef01" (Some "C1")) demo_db
   = ((run (request_token 200 "0123456789abcdef01" (Some "C1")) demo_db).1,
      TIssued "0123456789abcdef01" 60200) ∧
   "0123456789abcdef01" ≠ "") ∧
  short_tokens demo_db !! "0123456789abcdef01" = None.
Proof.
  assert ("0123456789abcdef01" ≠ "") as Hne by discriminate.
  assert (run (request_token 200 "0123456789abcdef01" (Some "C1")) demo_db
          = ((run (request_token 200 "0123456789abcdef01" (Some "C1")) demo_db).1,
             TIssued "0123456789abcdef01" 60200)) as Hrun by (vm_compute; reflexivity).
  split; [split; assumption|].
  destruct (issued_token_lifecycle _ _ _ _ _ _ _ Hrun Hne) as (_ & _ & Hfresh & _).
  exact Hfresh.
Defined.

(** ** Credentials *)

Lemma token_taken_false c (m : gmap string string) :
  token_taken c m = false ↔ ∀ sid, m !! sid ≠ Some c.
Proof.
  unfold token_taken. rewrite bool_decide_eq_false. unfold map_Exists. split.
  - intros Hno sid Hsid. apply Hno. eauto.
  - intros Hno (sid & c' & Hsid & ->). by apply (Hno sid).
Qed.

(** What the answer [{ok: true}] of POST /enroll says about the request
    and the tables. *)
Lemma enroll_ok ADMIN_SECRET now body d :
  (run (enroll ADMIN_SECRET now body) d).2 = EOk →
  ∃ c sid row,
    eb_adminSecret body = ADMIN_SECRET ∧
    eb_enrollmentToken body = Some c ∧ c ≠ "" ∧
    eb_studentId body = Some sid ∧ sid ≠ "" ∧
    enrollments d !! c = None ∧ identity_map d !! sid = None ∧
    (∀ sid', identity_map d !! sid' ≠ Some c) ∧
    (run (enroll ADMIN_SECRET now body) d).1
    = set_identity_map (insert sid c) (set_enrollments (insert c row) d).
Proof.
  unfold enroll.
  destruct (bool_decide (eb_adminSecret body = ADMIN_SECRET)) eqn:Hadm; simpl;
    [|discriminate].
  apply bool_decide_eq_true in Hadm.
  destruct (truthy (eb_enrollmentToken body)) eqn:Hc; simpl; [|discriminate].
  destruct (truthy (eb_studentId body)) eqn:Hs; simpl; [|discriminate].
  apply truthy_inv in Hc as (c & Hc & Hcne), Hs as (sid & Hs & Hsne).
  rewrite Hc, Hs. simpl.
  destruct (enrollments d !! c) eqn:Hrow; simpl; [discriminate|].
  destruct (identity_map d !! sid) eqn:Hid; simpl; [discriminate|].
  destruct (token_taken c (identity_map d)) eqn:Htaken; simpl; [discriminate|].
  intros _. exists c, sid. eexists.
  pose proof (proj1 (token_taken_false _ _) Htaken) as Hfree.
  repeat split; done.
Qed.

(** Revoking the student of a successful enrollment restores all four
    tables to what they were before the enrollment. *)
Theorem enroll_then_revoke ADMIN_SECRET now body d :
  (run (enroll ADMIN_SECRET now body) d).2 = EOk →
  run (revoke_enrollment ADMIN_SECRET (eb_studentId body) ADMIN_SECRET)
      (run (enroll ADMIN_SECRET now body) d).1
  = (d, ROk).
Proof.
  intros Hok.
  destruct (enroll_ok _ _ _ _ Hok)
    as (c & sid & row & _ & _ & _ & -> & Hsne & Hrow & Hid & _ & ->).
  unfold revoke_enrollment. rewrite bool_decide_eq_true_2, truthy_Some by done.
  simpl. rewrite lookup_insert_eq. simpl.
  destruct d as [e i s r]. unfold set_identity_map, set_enrollments. simpl in *.
  by rewrite !delete_insert_id.
Qed.

Lemma enroll_then_revoke_witness :
  (run (enroll (Some "s3cret") 500
          (EnrollBody (Some "C9") (Some "60000000") (Some "D2") (Some "s3cret") None)) demo_db).2
  = EOk ∧
  run (revoke_enrollment (Some "s3cret") (Some "60000000") (Some "s3cret"))
      (run (enroll (Some "s3cret") 500
              (EnrollBody (Some "C9") (Some "60000000") (Some "D2") (Some "s3cret") None))
           demo_db).1
  = (demo_db, ROk).
Proof.
  assert ((run (enroll (Some "s3cret") 500
             (EnrollBody (Some "C9") (Some "60000000") (Some "D2") (Some "s3cret") None))
             demo_db).2 = EOk) as Hok by (vm_compute; reflexivity).
  split; [exact Hok|].
  exact (enroll_then_revoke (Some "s3cret") 500
           (EnrollBody (Some "C9") (Some "60000000") (Some "D2") (Some "s3cret") None)
           demo_db Hok).
Defined.

(** After a successful revoke the credential can obtain no token (403
    "unknown enrollmentToken", nothing written) and a second revoke of the
    same student is answered 404 and changes nothing. *)
Theorem revoked_credential_locked_out ADMIN_SECRET sid adminSecret d c :
  (run (revoke_enrollment ADMIN_SECRET (Some sid) adminSecret) d).2 = ROk →
  identity_map d !! sid = Some c → c ≠ "" →
  let d' := (run (revoke_enrollment ADMIN_SECRET (Some sid) adminSecret) d).1 in
  (∀ now tokenStr,
     run (request_token now tokenStr (Some c)) d'
     = (d', TForbidden "unknown enrollmentToken")) ∧
  run (revoke_enrollment ADMIN_SECRET (Some sid) adminSecret) d'
  = (d', RNotFound "student_not_found").
Proof.
  intros Hok Hid Hne d'. subst d'. revert Hok. unfold revoke_enrollment.
  destruct (bool_decide (adminSecret = ADMIN_SECRET)); simpl; [|discriminate].
  destruct (String.eqb sid "") eqn:Hs; simpl; [discriminate|].
  rewrite Hid. simpl. intros _.
  split.
  - intros now tokenStr. unfold request_token. rewrite truthy_Some by done.
    simpl. by rewrite lookup_delete_eq.
  - by rewrite lookup_delete_eq.
Qed.

Lemma revoked_credential_locked_out_witness :
  ((run (revoke_enrollment None (Some "40000000") None) demo_db).2 = ROk ∧
   identity_map demo_db !! "40000000" = Some "C1" ∧ "C1" ≠ "") ∧
  run (request_token 300 "0123456789abcdef01" (Some "C1"))
      (run (revoke_enrollment None (Some "40000000") None) demo_db).1
  = ((run (revoke_enrollment None (Some "40000000") None) demo_db).1,
     TForbidden "unknown enrollmentToken").
Proof.
  assert ("C1" ≠ "") as Hne by discriminate.
  split; [repeat split; first [reflexivity | assumption]|].
  destruct (revoked_credential_locked_out None "40000000" None demo_db "C1"
              eq_refl eq_refl Hne) as [H _].
  exact (H 300 "0123456789abcdef01").
Defined.

Lemma serve_keeps_credentials ADMIN_SECRET r d :
  ¬ changes_credentials ADMIN_SECRET r →
  enrollments (serve ADMIN_SECRET r d) = enrollments d ∧
  identity_map (serve ADMIN_SECRET r d) = identity_map d.
Proof.
  intros Hno. destruct r; simpl in Hno; unfold serve.
  - unfold enroll. rewrite bool_decide_eq_false_2 by done. by simpl.
  - unfold request_token. branches; by split.
  - unfold validate. branches; by split.
  - unfold revoke_enrollment. rewrite bool_decide_eq_false_2 by done. by simpl.
  - by rewrite check_status_tables.
  - by simpl.
  - done.
Qed.

(** Only an enroll or a revoke that carries the admin secret, or the
    enrollment sweep, writes [enrollments] or [identity_map]. *)
Theorem credentials_written_only_by_admin ADMIN_SECRET r d :
  ¬ changes_credentials ADMIN_SECRET r →
  enrollments (serve ADMIN_SECRET r d) = enrollments d ∧
  identity_map (serve ADMIN_SECRET r d) = identity_map d.
Proof. apply serve_keeps_credentials. Qed.

Lemma credentials_written_only_by_admin_witness :
  ¬ changes_credentials (Some "s3cret") (PostEnroll 500
      (EnrollBody (Some "C9") (Some "60000000") None (Some "guess") None)) ∧
  enrollments (serve (Some "s3cret") (PostEnroll 500
      (EnrollBody (Some "C9") (Some "60000000") None (Some "guess") None)) demo_db)
  = enrollments demo_db.
Proof.
  assert (¬ changes_credentials (Some "s3cret") (PostEnroll 500
            (EnrollBody (Some "C9") (Some "60000000") None (Some "guess") None)))
    as Hno by (simpl; discriminate).
  split; [exact Hno|].
  exact (proj1 (credentials_written_only_by_admin (Some "s3cret") _ demo_db Hno)).
Defined.

(** ** The sweeps *)

(** The token sweep deletes exactly the rows with [expires_at <= time],
    writes no other table, and a further sweep at the same or an earlier
    time finds nothing left to delete. *)
Theorem sweep_tokens_exact time d :
  let d' := (run (cleanupExpiredTokens time) d).1 in
  (∀ t row, short_tokens d' !! t = Some row ↔
            short_tokens d !! t = Some row ∧ time < s_expires_at row) ∧
  enrollments d' = enrollments d ∧ identity_map d' = identity_map d ∧
  rate_limits d' = rate_limits d ∧
  ∀ time', time' ≤ time → (run (cleanupExpiredTokens time') d').1 = d'.
Proof.
  simpl. split; [|split; [done|split; [done|split; [done|]]]].
  - intros t row. rewrite map_lookup_filter_Some. simpl. intuition lia.
  - intros time' Hle. destruct d as [e i s r]. unfold set_short_tokens. simpl.
    f_equal. apply map_filter_id. intros t row Hrow.
    apply map_lookup_filter_Some in Hrow as [_ Hlive]. simpl in *. lia.
Qed.

Lemma sweep_tokens_exact_witness :
  60000 ≤ 60100 ∧
  (run (cleanupExpiredTokens 60000) (run (cleanupExpiredTokens 60100) demo_db).1).1
  = (run (cleanupExpiredTokens 60100) demo_db).1.
Proof.
  assert (60000 ≤ 60100) as Hle by lia.
  split; [exact Hle|].
  destruct (sweep_tokens_exact 60100 demo_db) as (_ & _ & _ & _ & H).
  exact (H 60000 Hle).
Defined.

Lemma expired_tokens_elem time d c :
  c ∈ (exec (SelectExpiredEnrollments time) d).2 ↔
  ∃ e, enrollments d !! c = Some e ∧ e_expires_at e ≤ time.
Proof.
  simpl. rewrite list_elem_of_fmap. split.
  - intros ([c' e] & -> & Hin). apply elem_of_map_to_list in Hin.
    apply map_lookup_filter_Some in Hin as [Hrow Hexp]. eauto.
  - intros (e & Hrow & Hexp). exists (c, e). split; [done|].
    apply elem_of_map_to_list, map_lookup_filter_Some. done.
Qed.

Lemma delete_identities_spec ts : ∀ d,
  enrollments (run (delete_identities ts (Respond tt)) d).1 = enrollments d ∧
  rate_limits (run (delete_identities ts (Respond tt)) d).1 = rate_limits d ∧
  ∀ sid c, identity_map (run (delete_identities ts (Respond tt)) d).1 !! sid = Some c ↔
           identity_map d !! sid = Some c ∧ c ∉ ts.
Proof.
  induction ts as [|t ts IH]; intros d; simpl.
  - split; [done|]. split; [done|]. intros sid c.
    split; [intros H; split; [done|apply not_elem_of_nil]|by intros [? _]].
  - destruct (IH (set_identity_map (filter (λ kv, kv.2 ≠ t)) d)) as (He & Hr & Hi).
    split; [by rewrite He|]. split; [by rewrite Hr|].
    intros sid c. rewrite Hi. simpl. rewrite map_lookup_filter_Some, not_elem_of_cons.
    simpl. intuition.
Qed.

Lemma sweep_enrollments_lookup time d :
  (∀ c e, enrollments (run (cleanupEnrollmentTokens time) d).1 !! c = Some e ↔
          enrollments d !! c = Some e ∧ time < e_expires_at e) ∧
  (∀ sid c, identity_map (run (cleanupEnrollmentTokens time) d).1 !! sid = Some c ↔
            identity_map d !! sid = Some c ∧
            ¬ ∃ e, enrollments d !! c = Some e ∧ e_expires_at e ≤ time) ∧
  rate_limits (run (cleanupEnrollmentTokens time) d).1 = rate_limits d.
Proof.
  unfold cleanupEnrollmentTokens.
  pose proof (expired_tokens_elem time d) as Hexp.
  cbn [run]. destruct (exec (SelectExpiredEnrollments time) d) as [d0 ts] eqn:Hsel.
  assert (d0 = d) as -> by (by injection Hsel).
  cbn [snd] in Hexp.
  destruct (0 <? Z.of_nat (length ts)) eqn:Hlen.
  - cbn [run exec].
    destruct (delete_identities_spec ts
                (set_enrollments (filter (λ kv, ¬ e_expires_at kv.2 ≤ time)) d))
      as (He & Hr & Hi).
    split; [|split; [|by rewrite Hr]].
    + intros c e. rewrite He. simpl. rewrite map_lookup_filter_Some. simpl.
      intuition lia.
    + intros sid c. rewrite Hi. simpl. by rewrite Hexp.
  - assert (ts = []) as -> by (destruct ts; [done|simpl in Hlen; zbool; lia]).
    simpl. split; [|split; [|done]].
    + intros c e. split; [|by intros [? _]]. intros Hrow. split; [done|].
      destruct (decide (e_expires_at e ≤ time)) as [Hold|]; [|lia].
      exfalso. eapply not_elem_of_nil, Hexp. eauto.
    + intros sid c. split; [|by intros [? _]]. intros Hrow. split; [done|].
      intros Hold. eapply not_elem_of_nil, Hexp, Hold.
Qed.

(** The enrollment sweep deletes exactly the credentials with
    [expires_at <= time] and the identity-map rows that name them, writes
    neither [short_tokens] nor [rate_limits], and a second sweep at the
    same time changes nothing. *)
Theorem sweep_enrollments_exact time d :
  let d' := (run (cleanupEnrollmentTokens time) d).1 in
  (∀ c e, enrollments d' !! c = Some e ↔
          enrollments d !! c = Some e ∧ time < e_expires_at e) ∧
  (∀ sid c, identity_map d' !! sid = Some c ↔
            identity_map d !! sid = Some c ∧
            ¬ ∃ e, enrollments d !! c = Some e ∧ e_expires_at e ≤ time) ∧
  short_tokens d' = short_tokens d ∧ rate_limits d' = rate_limits d ∧
  (run (cleanupEnrollmentTokens time) d').1 = d'.
Proof.
  intros d'. destruct (sweep_enrollments_lookup time d) as (He & Hi & Hr).
  split; [done|]. split; [done|].
  split; [by apply sweep_enrollments_short_tokens|]. split; [done|].
  unfold cleanupEnrollmentTokens. cbn [run].
  destruct (exec (SelectExpiredEnrollments time) d') as [d0 ts] eqn:Hsel.
  assert (d0 = d') as -> by (by injection Hsel).
  assert (ts = []) as ->; [|done].
  pose proof (expired_tokens_elem time d') as Hexp. rewrite Hsel in Hexp.
  destruct ts as [|c ts]; [done|]. exfalso.
  destruct (proj1 (Hexp c)) as (e & Hrow & Hold); [by left|].
  apply He in Hrow. lia.
Qed.

Lemma sweep_enrollments_exact_witness :
  identity_map (run (cleanupEnrollmentTokens 2000) expired_db).1 !! "50000000" = None ∧
  enrollments (run (cleanupEnrollmentTokens 2000) expired_db).1 !! "C2" = None ∧
  short_tokens (run (cleanupEnrollmentTokens 2000) expired_db).1 = short_tokens expired_db.
Proof.
  destruct (sweep_enrollments_exact 2000 expired_db) as (_ & _ & Hs & _).
  split; [vm_compute; reflexivity|]. split; [vm_compute; reflexivity|]. exact Hs.
Defined.

(** ** Referential integrity of the identity map *)

Lemma enroll_integrity ADMIN_SECRET now body d :
  integrity d → integrity (run (enroll ADMIN_SECRET now body) d).1.
Proof.
  intros [Href Hinj]. unfold enroll.
  destruct (bool_decide _); simpl; [|done].
  destruct (negb _ || negb _); simpl; [done|].
  set (c := default "" (eb_enrollmentToken body)).
  set (sid := default "" (eb_studentId body)).
  destruct (enrollments d !! c) eqn:Hrow; simpl; [done|].
  assert (∀ s c', identity_map d !! s = Some c' →
                  is_Some (<[c:=Enrollment (perms_or_all (eb_permissions body)) now
                                  (expiry_or_default now (eb_expiresAt body))]>
                             (enrollments d) !! c')) as Href'.
  { intros s c' Hs. rewrite lookup_insert_is_Some. right. split; [|by eapply Href].
    intros <-. apply Href in Hs. rewrite Hrow in Hs. by destruct Hs. }
  destruct (identity_map d !! sid) eqn:Hid; simpl; [by split|].
  destruct (token_taken c (identity_map d)) eqn:Htaken; simpl; [by split|].
  pose proof (proj1 (token_taken_false _ _) Htaken) as Hfree.
  split; simpl.
  - intros s c'. rewrite lookup_insert_Some. intros [[<- <-]|[_ Hs]]; [|by eapply Href'].
    rewrite lookup_insert_eq. eauto.
  - intros s1 s2 c'. rewrite !lookup_insert_Some.
    intros [[<- <-]|[? H1]] [[<- Hc]|[? H2]]; try done.
    + by destruct (Hfree s2).
    + subst c'. by destruct (Hfree s1).
    + by eapply Hinj.
Qed.

Lemma revoke_integrity ADMIN_SECRET studentId adminSecret d :
  integrity d → integrity (run (revoke_enrollment ADMIN_SECRET studentId adminSecret) d).1.
Proof.
  intros [Href Hinj]. unfold revoke_enrollment.
  destruct (bool_decide _); simpl; [|done].
  destruct (truthy studentId); simpl; [|done].
  set (sid := default "" studentId).
  destruct (identity_map d !! sid) as [c|] eqn:Hid; simpl; [|done].
  split; simpl.
  - intros s c'. rewrite lookup_delete_Some. intros [Hne Hs].
    rewrite lookup_delete_is_Some. split; [|by eapply Href].
    intros <-. apply Hne. by eapply Hinj.
  - intros s1 s2 c'. rewrite !lookup_delete_Some. intros [_ H1] [_ H2]. by eapply Hinj.
Qed.

Lemma sweep_enrollments_integrity time d :
  integrity d → integrity (run (cleanupEnrollmentTokens time) d).1.
Proof.
  intros [Href Hinj]. destruct (sweep_enrollments_lookup time d) as (He & Hi & _).
  split.
  - intros s c. rewrite Hi. intros [Hs Hlive].
    destruct (Href s c Hs) as [e Hrow]. exists e. apply He. split; [done|].
    destruct (decide (e_expires_at e ≤ time)); [|lia]. destruct Hlive; eauto.
  - intros s1 s2 c. rewrite !Hi. intros [H1 _] [H2 _]. by eapply Hinj.
Qed.

Lemma serve_integrity ADMIN_SECRET r d :
  integrity d → integrity (serve ADMIN_SECRET r d).
Proof.
  intros Hint. destruct r.
  - by apply enroll_integrity.
  - unfold integrity.
    destruct (serve_keeps_credentials ADMIN_SECRET
                (PostRequestToken now tokenStr enrollmentToken) d) as [-> ->]; auto.
  - unfold integrity.
    destruct (serve_keeps_credentials ADMIN_SECRET (PostValidate now body) d)
      as [-> ->]; auto.
  - by apply revoke_integrity.
  - unfold integrity.
    destruct (serve_keeps_credentials ADMIN_SECRET (GetCheckStatus token) d)
      as [-> ->]; auto.
  - unfold integrity.
    destruct (serve_keeps_credentials ADMIN_SECRET (SweepTokens time) d)
      as [-> ->]; auto.
  - by apply sweep_enrollments_integrity.
Qed.

(** Whatever requests are served, every identity-map row keeps naming a
    stored credential and no credential is named by two student ids, so
    a revoke by student id always finds the one credential of that student
    and removes it. *)
Theorem integrity_preserved ADMIN_SECRET rs d :
  integrity d → integrity (serve_all ADMIN_SECRET rs d).
Proof.
  revert d. induction rs as [|r rs IH]; intros d Hint; [done|].
  simpl. by apply IH, serve_integrity.
Qed.

Lemma demo_db_integrity : integrity demo_db.
Proof.
  unfold integrity, demo_db. cbn [identity_map enrollments]. split.
  - intros sid c Hs. apply lookup_singleton_Some in Hs as [<- <-]. by eexists.
  - intros s1 s2 c H1 H2.
    apply lookup_singleton_Some in H1 as [<- _], H2 as [<- _]. done.
Defined.

Lemma integrity_preserved_witness :
  integrity demo_db ∧
  integrity (serve_all (Some "s3cret")
               [PostEnroll 500 second_enrollment; SweepEnrollments 600;
                PostRevokeEnrollment (Some "40000000") (Some "s3cret")] demo_db).
Proof.
  split; [exact demo_db_integrity|].
  exact (integrity_preserved (Some "s3cret") _ demo_db demo_db_integrity).
Defined.

(** ** The rate limiter over time *)

Lemma filter_submseteq_mono (P : Z → Prop) `{∀ x, Decision (P x)} (l1 l2 : list Z) :
  l1 ⊆+ l2 → filter P l1 ⊆+ filter P l2.
Proof.
  induction 1 as [|x l1 l2 _ IH|x y l|x l1 l2 _ IH|l1 l2 l3 _ IH1 _ IH2].
  - done.
  - rewrite !filter_cons. destruct (decide (P x)); [by constructor|done].
  - rewrite !filter_cons. destruct (decide (P x)), (decide (P y)); try done.
    apply submseteq_swap.
  - rewrite filter_cons. destruct (decide (P x)); [by constructor|done].
  - by etrans.
Qed.

Lemma filter_submseteq_weaken (P Q : Z → Prop)
    `{∀ x, Decision (P x)} `{∀ x, Decision (Q x)} (l : list Z) :
  (∀ x, P x → Q x) → filter P l ⊆+ filter Q l.
Proof.
  intros HPQ. induction l as [|x l IH]; [done|].
  rewrite !filter_cons. destruct (decide (P x)) as [HP|HP].
  - rewrite decide_True by auto. by constructor.
  - destruct (decide (Q x)); [by constructor|done].
Qed.

Lemma filter_none (P : Z → Prop) `{∀ x, Decision (P x)} (l : list Z) :
  Forall (λ x, ¬ P x) l → filter P l = [].
Proof.
  induction 1 as [|x l Hx _ IH]; [done|]. by rewrite filter_cons_False.
Qed.

(** What one token request does to the rate-limit row of its credential. *)
Lemma request_token_rate_step now tokenStr c d :
  let row := rate_row c d in
  let kept := filter (λ ts, ts > now - WINDOW_MS) (requests row) in
  let d' := (run (request_token now tokenStr (Some c)) d).1 in
  let r := (run (request_token now tokenStr (Some c)) d).2 in
  (rate_row c d' = row ∧ ∀ t e, r ≠ TIssued t e) ∨
  (suspended_until row ≤ now ∧ rate_row c d' = RateLimit [] (now + WINDOW_MS) ∧
   ∀ t e, r ≠ TIssued t e) ∨
  (suspended_until row ≤ now ∧ Z.of_nat (length kept) < MAX_REQUESTS ∧
   rate_row c d' = RateLimit (kept ++ [now]) 0).
Proof.
  intros row kept d' r. subst d' r. unfold request_token.
  destruct (decide (c = "")) as [->|Hne]; [by left|].
  rewrite truthy_Some by done. simpl.
  destruct (enrollments d !! c) as [user|]; [|by left].
  destruct (e_expires_at user <? now); [by left|]. simpl.
  fold (rate_row c d). fold row.
  destruct (suspended_until row >? now) eqn:Hs; [by left|]. zbool.
  fold kept.
  destruct (Z.of_nat (length kept) >=? MAX_REQUESTS) eqn:Hmax; zbool; simpl.
  - right; left. unfold rate_row. simpl. rewrite lookup_insert_eq. simpl.
    repeat split; done.
  - right; right. split; [lia|]. split; [lia|]. unfold rate_row.
    destruct (short_tokens d !! tokenStr); simpl; by rewrite lookup_insert_eq.
Qed.

Lemma serve_other_credential ADMIN_SECRET c r d :
  request_time c r = None →
  issues c r d = None ∧ rate_row c (serve ADMIN_SECRET r d) = rate_row c d.
Proof.
  unfold rate_row. destruct r; cbn [request_time issues]; intros Hrt; unfold serve.
  - split; [done|]. f_equal. unfold enroll. branches; reflexivity.
  - destruct (bool_decide (enrollmentToken = Some c)) eqn:Hc; [discriminate|].
    apply bool_decide_eq_false in Hc. split; [done|]. f_equal.
    unfold request_token.
    destruct (truthy enrollmentToken) eqn:Ht; simpl; [|done].
    apply truthy_inv in Ht as (c' & -> & _). simpl.
    assert (c' ≠ c) by congruence.
    branches; rewrite ?lookup_insert_ne by done; reflexivity.
  - split; [done|]. f_equal. unfold validate. branches; reflexivity.
  - split; [done|]. f_equal. unfold revoke_enrollment. branches; reflexivity.
  - split; [done|]. by rewrite check_status_tables.
  - done.
  - split; [done|]. f_equal.
    by destruct (sweep_enrollments_lookup time d) as (_ & _ & ->).
Qed.

Lemma issued_times_within_limit ADMIN_SECRET c rs : ∀ d last L,
  accounted c last d L → within_limit L →
  nondecreasing_from last (omap (request_time c) rs) →
  within_limit (L ++ issued_times ADMIN_SECRET c rs d).
Proof.
  induction rs as [|r rs IH]; intros d last L Hacc Hlim Hmono; simpl.
  { by rewrite app_nil_r. }
  simpl in Hmono. destruct (request_time c r) as [now|] eqn:Hrt.
  2:{ destruct (serve_other_credential ADMIN_SECRET c r d Hrt) as [-> Hrow].
      simpl. apply (IH _ last); [|done..].
      unfold accounted in *. by rewrite Hrow. }
  destruct Hmono as [Hle Hmono]. rewrite app_assoc.
  destruct r as [|now' tokenStr e| | | | |]; simpl in Hrt; try discriminate.
  destruct (bool_decide (e = Some c)) eqn:He; [|discriminate].
  apply bool_decide_eq_true in He as ->. injection Hrt as ->.
  simpl. rewrite bool_decide_eq_true_2 by done.
  destruct Hacc as [Hold Hsub].
  pose proof (request_token_rate_step now tokenStr c d) as Hstep. simpl in Hstep.
  set (row := rate_row c d) in *.
  set (kept := filter (λ ts, ts > now - WINDOW_MS) (requests row)) in *.
  assert (Forall (λ ts, ts ≤ now) L) as Hold'.
  { eapply Forall_impl; [exact Hold|]. simpl. intros. lia. }
  (* the issue times of the last window are among the kept timestamps *)
  assert (suspended_until row ≤ now →
          filter (λ ts, now - WINDOW_MS < ts) L ⊆+ kept) as Hrecent.
  { intros Hs. etrans; [|apply (filter_submseteq_mono (λ ts, ts > now - WINDOW_MS)), Hsub].
    rewrite list_filter_filter. apply filter_submseteq_weaken. intros ts ?. lia. }
  apply (IH _ now); [|clear IH|done].
  - (* the invariant after the request *)
    destruct Hstep as [[Hrow Hno]|[(Hs & Hrow & Hno)|(Hs & Hmax & Hrow)]].
    + assert (option_list
                match (run (request_token now tokenStr (Some c)) d).2 with
                | TIssued _ _ => Some now
                | _ => None
                end = []) as ->.
      { destruct (run _ d).2; try done. by destruct (Hno token expiresAt). }
      rewrite app_nil_r. split; [done|]. rewrite Hrow. fold row.
      etrans; [|exact Hsub]. apply filter_submseteq_weaken. intros ts ?. lia.
    + assert (option_list
                match (run (request_token now tokenStr (Some c)) d).2 with
                | TIssued _ _ => Some now
                | _ => None
                end = []) as ->.
      { destruct (run _ d).2; try done. by destruct (Hno token expiresAt). }
      rewrite app_nil_r. split; [done|]. rewrite Hrow. simpl.
      rewrite filter_none; [done|].
      eapply Forall_impl; [exact Hold'|]. simpl. intros. lia.
    + split.
      { apply Forall_app. split; [done|].
        destruct (run _ d).2; simpl; repeat constructor. lia. }
      rewrite Hrow. simpl. rewrite filter_app. apply submseteq_app.
      * etrans; [|exact (Hrecent Hs)]. apply filter_submseteq_weaken. intros ts ?. lia.
      * etrans; [apply sublist_submseteq, sublist_filter|].
        destruct (run _ d).2; simpl; try apply submseteq_nil_l. done.
  - (* the limit after the request *)
    destruct (run (request_token now tokenStr (Some c)) d).2 eqn:Hr;
      simpl; rewrite ?app_nil_r; try done.
    destruct Hstep as [[_ Hno]|[(_ & _ & Hno)|(Hs & Hmax & _)]];
      [by destruct (Hno token expiresAt)..|].
    intros a. rewrite filter_app, length_app.
    destruct (decide (a - WINDOW_MS < now ∧ now ≤ a)) as [Hin|Hout].
    + rewrite (filter_cons_True _ now) by done. simpl.
      assert (filter (λ ts, a - WINDOW_MS < ts ∧ ts ≤ a) L ⊆+ kept) as Hsubk.
      { etrans; [|exact (Hrecent Hs)]. apply filter_submseteq_weaken. intros ts ?. lia. }
      apply submseteq_length in Hsubk. lia.
    + rewrite (filter_cons_False _ now) by done. simpl. specialize (Hlim a). lia.
Qed.

(** Requests served one at a time, each handler run to completion before
    the next request starts: whatever the requests are, as long as the
    clock readings of one credential's token requests never go back, that
    credential is handed at most MAX_REQUESTS = 3 short tokens in any span
    of WINDOW_MS = 180000 milliseconds. *)
Theorem rate_limit_window ADMIN_SECRET c rs d a :
  nondecreasing (omap (request_time c) rs) →
  Z.of_nat (length (filter (λ ts, a - 180000 < ts ∧ ts ≤ a)
                      (issued_times ADMIN_SECRET c rs d))) ≤ 3.
Proof.
  intros Hmono.
  assert (∃ last, nondecreasing_from last (omap (request_time c) rs)) as [last Hfrom].
  { destruct (omap (request_time c) rs) as [|x l]; [by exists 0|].
    exists x. simpl. split; [lia|done]. }
  apply (issued_times_within_limit ADMIN_SECRET c rs d last [] ); [| |done].
  - split; [done|]. apply submseteq_nil_l.
  - intros a'. simpl. unfold MAX_REQUESTS. lia.
Qed.

Example issued_times_scenario :
  issued_times None "C1"
    [PostRequestToken 0 "aa" (Some "C1"); PostRequestToken 1 "bb" (Some "C1");
     PostValidate 2 demo_body; PostRequestToken 2 "cc" (Some "C1");
     PostRequestToken 3 "dd" (Some "C1"); PostRequestToken 180002 "ee" (Some "C1");
     PostRequestToken 180003 "ff" (Some "C1")] demo_db
  = [0; 1; 2; 180003].
Proof. vm_compute. reflexivity. Qed.

Lemma rate_limit_window_witness :
  nondecreasing (omap (request_time "C1")
    [PostRequestToken 0 "aa" (Some "C1"); PostRequestToken 1 "bb" (Some "C1");
     PostRequestToken 2 "cc" (Some "C1"); PostRequestToken 3 "dd" (Some "C1")]) ∧
  Z.of_nat (length (filter (λ ts, 3 - 180000 < ts ∧ ts ≤ 3)
    (issued_times None "C1"
       [PostRequestToken 0 "aa" (Some "C1"); PostRequestToken 1 "bb" (Some "C1");
        PostRequestToken 2 "cc" (Some "C1"); PostRequestToken 3 "dd" (Some "C1")]
       demo_db))) ≤ 3.
Proof.
  assert (nondecreasing (omap (request_time "C1")
            [PostRequestToken 0 "aa" (Some "C1"); PostRequestToken 1 "bb" (Some "C1");
             PostRequestToken 2 "cc" (Some "C1"); PostRequestToken 3 "dd" (Some "C1")]))
    as Hmono by (simpl; lia).
  split; [exact Hmono|].
  exact (rate_limit_window None "C1" _ demo_db 3 Hmono).
Defined.

(** ** Overlapping token requests *)

(** The bound above needs the requests to be served one at a time.  The
    handler reads the rate row and writes it back in separate awaits: two
    token requests of credential C1 in flight together, at clock readings
    2 and 3, both read the row with the two earlier requests before either
    writes it, and both are answered with a token.  Four tokens issued at
    0, 1, 2 and 3 are then pending and the stored list has three entries.
    Served one after the other, the second of the two is refused and the
    credential suspended. *)
Theorem overlapping_token_requests_both_issued :
  let '(d', ra, rb) :=
    interleave [true; false; true; false]
      (request_token 2 "cc" (Some "C1")) (request_token 3 "dd" (Some "C1")) two_issued in
  rate_limits two_issued !! "C1" = Some (RateLimit [0; 1] 0) ∧
  ra = TIssued "cc" 60002 ∧ rb = TIssued "dd" 60003 ∧
  short_tokens d' !! "aa" = Some (ShortToken "C1" 0 60000 0) ∧
  short_tokens d' !! "bb" = Some (ShortToken "C1" 1 60001 0) ∧
  short_tokens d' !! "cc" = Some (ShortToken "C1" 2 60002 0) ∧
  short_tokens d' !! "dd" = Some (ShortToken "C1" 3 60003 0) ∧
  size (short_tokens d') = 4%nat ∧
  rate_limits d' !! "C1" = Some (RateLimit [0; 1; 3] 0) ∧
  (interleave [] (request_token 2 "cc" (Some "C1")) (request_token 3 "dd" (Some "C1"))
     two_issued).2 = TRateLimited 180003.
Proof.
  vm_compute. repeat split; reflexivity.
Qed.

(** ** Overlapping validate requests for different tokens *)

Lemma validate_on_token now body t :
  vb_token body = Some t → on_token t (validate now body).
Proof.
  intros Htok. unfold validate. rewrite Htok.
  destruct (truthy (Some t)); simpl; [|constructor].
  destruct (truthy (vb_doorId body)); simpl; [|constructor].
  constructor; [done|]. intros [entry|]; [|constructor].
  destruct (s_expires_at entry <=? now).
  { constructor; [done|]. intros _. constructor. }
  destruct (used entry =? 1); [constructor|].
  destruct (used entry =? 2); [constructor|].
  constructor; [done|]. intros [user|].
  2:{ constructor; [done|]. intros _. constructor. }
  repeat match goal with
         | |- context [if ?c then _ else _] => destruct c
         end;
    (constructor; [done|]; intros _; constructor).
Qed.

(** Statements about two different tokens can be run in either order. *)
Lemma stmt_on_commute t1 t2 {X Y} (p : stmt X) (q : stmt Y) d :
  t1 ≠ t2 → stmt_on t1 p → stmt_on t2 q →
  (exec p (exec q d).1).1 = (exec q (exec p d).1).1 ∧
  (exec p (exec q d).1).2 = (exec p d).2 ∧
  (exec q (exec p d).1).2 = (exec q d).2.
Proof.
  intros Hne Hp Hq. destruct d as [e i s r].
  destruct p; simpl in Hp; try done; destruct q; simpl in Hq; try done;
    subst; unfold set_short_tokens; simpl;
    rewrite ?lookup_delete_ne, ?lookup_alter_ne by done; repeat split;
    cbv [set_short_tokens short_tokens enrollments identity_map rate_limits]; f_equal.
  - by apply alter_alter_ne.
  - symmetry. by apply delete_alter_ne.
  - by apply delete_alter_ne.
  - apply map_eq. intros k. rewrite !lookup_delete.
    by destruct (decide (t1 = k)), (decide (t2 = k)).
Qed.

(** A statement about one token can be moved across a whole handler that
    is about another token. *)
Lemma run_commute {R Y} t1 t2 (a : handler R) (q : stmt Y) :
  t1 ≠ t2 → on_token t1 a → stmt_on t2 q → ∀ d,
  run a (exec q d).1 = ((exec q (run a d).1).1, (run a d).2) ∧
  (exec q (run a d).1).2 = (exec q d).2.
Proof.
  intros Hne Ha Hq. induction Ha as [r|X p k Hp _ IH]; intros d; [done|].
  simpl.
  destruct (stmt_on_commute t1 t2 p q d Hne Hp Hq) as (Hd & Hx & Hy).
  destruct (exec p (exec q d).1) as [d1 x1] eqn:E1.
  destruct (exec p d) as [d2 x2] eqn:E2.
  simpl in *. subst x1 d1.
  destruct (IH x2 d2) as [Hrun Hres]. rewrite Hrun, Hres. by rewrite Hy.
Qed.

Lemma step_on_token {R} t (a : handler R) d :
  on_token t a → on_token t (step a d).2.
Proof.
  intros [r|X q k _ Hk]; simpl; [constructor|].
  destruct (exec q d) as [d' x]. apply Hk.
Qed.

Lemma run_step {R} (a : handler R) d :
  run (step a d).2 (step a d).1 = run a d.
Proof. destruct a as [r|X q k]; simpl; [done|]. by destruct (exec q d). Qed.

Lemma interleave_on_tokens {R} t1 t2 (sched : list bool) : ∀ (a b : handler R) d,
  t1 ≠ t2 → on_token t1 a → on_token t2 b →
  interleave sched a b d = interleave [] a b d.
Proof.
  induction sched as [|[|] sched IH]; intros a b d Hne Ha Hb; [done| |].
  - simpl. destruct (step a d) as [d' a'] eqn:Hstep.
    rewrite IH; [|done|by apply (step_on_token t1 a d) in Ha; rewrite Hstep in Ha|done].
    simpl. pose proof (run_step a d) as Hrun. rewrite Hstep in Hrun. simpl in Hrun.
    by rewrite Hrun.
  - simpl. destruct (step b d) as [d' b'] eqn:Hstep.
    rewrite IH; [|done|done|by apply (step_on_token t2 b d) in Hb; rewrite Hstep in Hb].
    simpl. destruct Hb as [r|X q k Hq Hk]; simpl in Hstep.
    { by injection Hstep as <- <-. }
    destruct (run_commute t1 t2 a q Hne Ha Hq d) as [Hrun Hres].
    destruct (exec q d) as [d0 x] eqn:Hq0. injection Hstep as <- <-.
    simpl in Hrun, Hres. rewrite Hrun.
    destruct (run a d) as [d1 ra]. simpl in *.
    destruct (exec q d1) as [d2 x']. simpl in *. by subst x'.
Qed.

(** Two validate requests for different tokens that are in flight
    together do not interfere: however their statements are scheduled, the
    two answers and the final tables are those of serving the first
    request and then the second. *)
Theorem overlapping_validates_independent sched now1 body1 now2 body2 t1 t2 d :
  vb_token body1 = Some t1 → vb_token body2 = Some t2 → t1 ≠ t2 →
  interleave sched (validate now1 body1) (validate now2 body2) d
  = let '(d1, r1) := run (validate now1 body1) d in
    let '(d2, r2) := run (validate now2 body2) d1 in
    (d2, r1, r2).
Proof.
  intros H1 H2 Hne.
  apply (interleave_on_tokens t1 t2 sched); auto using validate_on_token.
Qed.

Lemma overlapping_validates_independent_witness :
  (vb_token demo_body = Some "T1" ∧
   vb_token (ValidateBody (Some "T2") None (Some 40) (Some "D1")) = Some "T2" ∧
   "T1" ≠ "T2") ∧
  interleave [false; true; true; false; true]
    (validate 200 demo_body)
    (validate 200 (ValidateBody (Some "T2") None (Some 40) (Some "D1"))) demo_db
  = (commit 1 "T1" demo_db, VGranted, VDenied "unknown_or_expired").
Proof.
  assert ("T1" ≠ "T2") as Hne by discriminate.
  split; [repeat split; first [reflexivity | assumption]|].
  rewrite (overlapping_validates_independent [false; true; true; false; true]
             200 demo_body 200 (ValidateBody (Some "T2") None (Some 40) (Some "D1"))
             "T1" "T2" demo_db eq_refl eq_refl Hne).
  vm_compute. reflexivity.
Defined.

(** * Further properties of the frame decoders *)

Lemma wifi_frame_accepts rx d rx' :
  (Serial2.available rx >=? 9) = true →
  WifiController.frame rx = (Some d, rx') →
  ∃ f, rx = f ++ rx' ∧ accepted_unchecked f d.
Proof.
  intros Hav.
  destruct rx as [|b0 [|b1 [|b2 [|b3 [|b4 [|b5 [|b6 [|b7 [|b8 rx]]]]]]]]];
    try (vm_compute in Hav; discriminate).
  clear Hav. unfold WifiController.frame; simpl.
  destruct (byte_val b0 =? 89) eqn:H0; [|discriminate].
  destruct (byte_val b1 =? 89) eqn:H1; [|discriminate].
  destruct ((_ >? 0) && (_ <? 1200)) eqn:Hr; [|discriminate].
  intros [= <- <-]. exists [b0; b1; b2; b3; b4; b5; b6; b7; b8].
  split; [done|]. unfold accepted_unchecked; simpl. rewrite H0, H1.
  apply andb_prop in Hr as [?%Z.gtb_lt ?%Z.ltb_lt].
  repeat split; auto with lia.
Qed.

Lemma wifi_frame_drops rx rx' :
  WifiController.frame rx = (None, rx') → ∃ pre, rx = pre ++ rx'.
Proof.
  unfold WifiController.frame.
  destruct rx as [|b0 rx]; simpl.
  { intros [= <-]. by exists []. }
  destruct (byte_val b0 =? 89); [|intros [= <-]; by exists [b0]].
  destruct (Serial2.peek rx =? 89); [|intros [= <-]; by exists [b0]].
  destruct rx as [|b1 [|b2 [|b3 [|b4 [|b5 [|b6 [|b7 [|b8 rx]]]]]]]]; simpl;
    repeat match goal with
           | |- context [if ?c then _ else _] => destruct c
           end;
    intros [= <-];
    first [ by eexists [_] | by eexists [_; _] | by eexists [_; _; _]
          | by eexists [_; _; _; _] | by eexists [_; _; _; _; _]
          | by eexists [_; _; _; _; _; _] | by eexists [_; _; _; _; _; _; _]
          | by eexists [_; _; _; _; _; _; _; _] | by eexists [_; _; _; _; _; _; _; _; _] ].
Qed.

(** A result other than the sentinel comes from nine consecutive bytes
    that arrived after the call (never from bytes buffered before it),
    starting with both sync bytes and carrying that distance, in range; on
    the BLE controller the checksum of those nine bytes matches as well. *)
Theorem decoder_reads_a_frame (c : controller) stale start polls d :
  decoder c stale start polls = Some d →
  d = 999 ∨
  ∃ f, window f (arrivals polls) ∧ length f = 9%nat ∧ synced f = true ∧
       frame_distance f = d ∧ 0 < d < 1200 ∧
       (c = Ble → checksum_ok f = true).
Proof.
  destruct c; simpl.
  - unfold BleController.getRobustLidarDistance. rewrite flush_empty. intros H.
    apply (read_loop_window 50 BleController.frame start accepted polls
             ble_frame_accepts ble_frame_drops) in H.
    destruct H as [->|(f & Hw & Hlen & Hs & Hck & Hd & Hr)]; [by left|].
    right. exists f. repeat split; auto with lia.
  - unfold WifiController.getRobustLidarDistance. rewrite flush_empty. intros H.
    apply (read_loop_window 200 WifiController.frame start accepted_unchecked polls
             wifi_frame_accepts wifi_frame_drops) in H.
    destruct H as [->|(f & Hw & Hlen & Hs & Hd & Hr)]; [by left|].
    right. exists f. repeat split; auto with lia. discriminate.
Qed.

Lemma decoder_reads_a_frame_witness :
  decoder Wifi [] 0 [Poll 0 corrupted_frame; Poll 200 []] = Some 50 ∧
  (50 = 999 ∨
   ∃ f, window f (arrivals [Poll 0 corrupted_frame; Poll 200 []]) ∧ length f = 9%nat ∧
        synced f = true ∧ frame_distance f = 50 ∧ 0 < 50 < 1200 ∧
        (Wifi = Ble → checksum_ok f = true)).
Proof.
  assert (decoder Wifi [] 0 [Poll 0 corrupted_frame; Poll 200 []] = Some 50) as H
    by (vm_compute; reflexivity).
  split; [exact H|].
  exact (decoder_reads_a_frame Wifi [] 0 _ 50 H).
Defined.

Lemma ble_decoder_corrupted_witness :
  ((∀ f, window f (arrivals [Poll 0 (Byte.x07 :: corrupted_frame); Poll 50 []]) →
         length f = 9%nat → synced f = true → checksum_ok f = false) ∧
   Exists (timed_out 50 0) [Poll 0 (Byte.x07 :: corrupted_frame); Poll 50 []]) ∧
  BleController.getRobustLidarDistance [] 0
    [Poll 0 (Byte.x07 :: corrupted_frame); Poll 50 []] = Some 999.
Proof.
  assert (∀ f, window f (arrivals [Poll 0 (Byte.x07 :: corrupted_frame); Poll 50 []]) →
               length f = 9%nat → synced f = true → checksum_ok f = false) as Hbad.
  { intros f (pre & post & Hw) Hlen Hs.
    destruct f as [|b0 [|b1 [|b2 [|b3 [|b4 [|b5 [|b6 [|b7 [|b8 [|]]]]]]]]]];
      try discriminate.
    unfold arrivals, corrupted_frame in Hw. simpl in Hw.
    destruct pre as [|p0 [|p1 [|p2 pre]]]; simplify_eq/=; try done.
    match goal with
    | H : _ = pre ++ _ |- _ =>
        apply (f_equal length) in H; rewrite length_app in H; simpl in H; lia
    end. }
  assert (Exists (timed_out 50 0) [Poll 0 (Byte.x07 :: corrupted_frame); Poll 50 []])
    as Hto.
  { apply Exists_cons_tl, Exists_cons_hd. unfold timed_out. vm_compute. discriminate. }
  split; [split; assumption|].
  exact (ble_decoder_corrupted [] 0 _ Hbad Hto).
Defined.

Section SkipNoise.
Variable budget : Z.
Variable body : list Byte.byte → option Z * list Byte.byte.
Variable start : Z.
Variable f : list Byte.byte.
Variable d : Z.
Hypothesis frame_length : length f = 9%nat.
Hypothesis body_skips : ∀ b rx, byte_val b ≠ 0x59 → body (b :: rx) = (None, rx).
Hypothesis body_accepts : ∀ rx, body (f ++ rx) = (Some d, rx).

(** The loop drops one noise byte per iteration and then returns the
    frame's distance. *)
Lemma read_loop_skips_noise noise : ∀ p ps rx tail,
  Forall (λ b, byte_val b ≠ 0x59) noise →
  rx ++ p_arrived p = noise ++ f ++ tail →
  (length noise < length (p :: ps))%nat →
  Forall (λ q, elapsed start (p_millis q) < budget) (take (S (length noise)) (p :: ps)) →
  read_loop budget body start (p :: ps) rx = Some d.
Proof using frame_length body_skips body_accepts.
  induction noise as [|b noise IH]; intros p ps rx tail Hnoise Hrx Hlen Hbudget.
  - simpl in Hrx. cbn [read_loop]. rewrite Hrx.
    apply Forall_cons in Hbudget as [Hp _]. apply Z.ltb_lt in Hp. rewrite Hp.
    assert ((Serial2.available (f ++ tail) >=? 9) = true) as ->.
    { unfold Serial2.available. rewrite length_app, frame_length. 
      rewrite Z.geb_leb. apply Z.leb_le. lia. }
    by rewrite body_accepts.
  - cbn [read_loop]. rewrite Hrx.
    simpl in Hbudget. apply Forall_cons in Hbudget as [Hp Hbudget].
    apply Z.ltb_lt in Hp. rewrite Hp.
    assert ((Serial2.available ((b :: noise) ++ f ++ tail) >=? 9) = true) as ->.
    { unfold Serial2.available. rewrite !length_app, frame_length.
      rewrite Z.geb_leb. apply Z.leb_le. lia. }
    apply Forall_cons in Hnoise as [Hb Hnoise].
    simpl. rewrite body_skips by done.
    destruct ps as [|p' ps]; [simpl in Hlen; lia|].
    apply (IH p' ps _ (tail ++ p_arrived p')); [done| |simpl in *; lia|done].
    by rewrite <-!app_assoc.
Qed.
End SkipNoise.

Lemma ble_frame_skips b rx :
  byte_val b ≠ 0x59 → BleController.frame (b :: rx) = (None, rx).
Proof.
  intros Hb. unfold BleController.frame. simpl.
  apply Z.eqb_neq in Hb. by rewrite Hb.
Qed.

Lemma wifi_frame_skips b rx :
  byte_val b ≠ 0x59 → WifiController.frame (b :: rx) = (None, rx).
Proof.
  intros Hb. unfold WifiController.frame. simpl.
  apply Z.eqb_neq in Hb. by rewrite Hb.
Qed.

Lemma ble_frame_reads f d rx :
  accepted f d → BleController.frame (f ++ rx) = (Some d, rx).
Proof.
  intros (Hlen & Hs & Hck & Hd & Hr).
  destruct f as [|b0 [|b1 [|b2 [|b3 [|b4 [|b5 [|b6 [|b7 [|b8 [|]]]]]]]]]];
    try discriminate.
  simpl in *. apply andb_prop in Hs as [H0 H1]. unfold BleController.frame. simpl.
  rewrite H0, H1. apply Z.eqb_eq in H0, H1. rewrite H0, H1 in Hck. rewrite Hck. 
  rewrite Hd.
  assert ((d >? 0) && (d <? 1200) = true) as ->; [|done].
  apply andb_true_intro. rewrite Z.gtb_ltb. split; apply Z.ltb_lt; lia.
Qed.

Lemma wifi_frame_reads f d rx :
  accepted_unchecked f d → WifiController.frame (f ++ rx) = (Some d, rx).
Proof.
  intros (Hlen & Hs & Hd & Hr).
  destruct f as [|b0 [|b1 [|b2 [|b3 [|b4 [|b5 [|b6 [|b7 [|b8 [|]]]]]]]]]];
    try discriminate.
  simpl in *. apply andb_prop in Hs as [H0 H1]. unfold WifiController.frame. simpl.
  rewrite H0, H1, Hd.
  assert ((d >? 0) && (d <? 1200) = true) as ->; [|done].
  apply andb_true_intro. rewrite Z.gtb_ltb. split; apply Z.ltb_lt; lia.
Qed.

(** Resynchronisation: when the bytes that arrive by the first poll are
    some noise without any sync byte followed by a frame the controller
    accepts, and the loop gets one iteration per noise byte plus one
    within its budget, the decoder returns that frame's distance, whatever
    was buffered before the call and whatever arrives later. *)
Theorem decoder_skips_noise (c : controller) stale start p ps noise f tail d :
  Forall (λ b, byte_val b ≠ 0x59) noise →
  accepts c f d →
  p_arrived p = noise ++ f ++ tail →
  (length noise < length (p :: ps))%nat →
  Forall (λ q, elapsed start (p_millis q) < time_budget c)
         (take (S (length noise)) (p :: ps)) →
  decoder c stale start (p :: ps) = Some d.
Proof.
  intros Hnoise Hf Hp Hlen Hbudget. destruct c; simpl in *.
  - unfold BleController.getRobustLidarDistance. rewrite flush_empty.
    apply (read_loop_skips_noise 50 BleController.frame start f d) with noise tail;
      try done.
    + apply Hf.
    + apply ble_frame_skips.
    + intros rx. by apply ble_frame_reads.
  - unfold WifiController.getRobustLidarDistance. rewrite flush_empty.
    apply (read_loop_skips_noise 200 WifiController.frame start f d) with noise tail;
      try done.
    + apply Hf.
    + apply wifi_frame_skips.
    + intros rx. by apply wifi_frame_reads.
Qed.

Lemma good_frame_accepted : accepted good_frame 50.
Proof. unfold accepted. repeat split; try (vm_compute; reflexivity); lia. Defined.

Lemma decoder_skips_noise_witness :
  (Forall (λ b, byte_val b ≠ 0x59) [Byte.x07; Byte.x00] ∧
   accepts Ble good_frame 50 ∧
   p_arrived (Poll 0 ([Byte.x07; Byte.x00] ++ good_frame ++ [])) =
     [Byte.x07; Byte.x00] ++ good_frame ++ [] ∧
   (length [Byte.x07; Byte.x00] < length [Poll 0 ([Byte.x07; Byte.x00] ++ good_frame ++ []);
                                           Poll 1 []; Poll 2 []])%nat ∧
   Forall (λ q, elapsed 0 (p_millis q) < time_budget Ble)
     (take (S (length [Byte.x07; Byte.x00]))
        [Poll 0 ([Byte.x07; Byte.x00] ++ good_frame ++ []); Poll 1 []; Poll 2 []])) ∧
  decoder Ble [Byte.x59] 0
    [Poll 0 ([Byte.x07; Byte.x00] ++ good_frame ++ []); Poll 1 []; Poll 2 []] = Some 50.
Proof.
  assert (Forall (λ b, byte_val b ≠ 0x59) [Byte.x07; Byte.x00]) as Hnoise.
  { repeat constructor; vm_compute; discriminate. }
  assert ((length [Byte.x07; Byte.x00]
           < length [Poll 0 ([Byte.x07; Byte.x00] ++ good_frame ++ []);
                     Poll 1 []; Poll 2 []])%nat) as Hlen by (simpl; lia).
  assert (Forall (λ q, elapsed 0 (p_millis q) < time_budget Ble)
            (take (S (length [Byte.x07; Byte.x00]))
               [Poll 0 ([Byte.x07; Byte.x00] ++ good_frame ++ []); Poll 1 []; Poll 2 []]))
    as Hbudget.
  { repeat constructor; vm_compute; reflexivity. }
  split; [repeat split; first [assumption | exact good_frame_accepted | reflexivity]|].
  exact (decoder_skips_noise Ble [Byte.x59] 0
           (Poll 0 ([Byte.x07; Byte.x00] ++ good_frame ++ [])) [Poll 1 []; Poll 2 []]
           [Byte.x07; Byte.x00] good_frame [] 50
           Hnoise good_frame_accepted eq_refl Hlen Hbudget).
Defined.

(** * Properties of the controllers *)

Lemma validate_signal_gate now body d rssi :
  vb_rssi body = Some rssi → rssi < RSSI_THRESHOLD →
  (run (validate now body) d).2 ≠ VGranted.
Proof.
  intros Hr Hlt. unfold validate. rewrite Hr. branches; try discriminate.
  zbool. lia.
Qed.

(** A grant for a relayed request means both readings passed. *)
Lemma granted_readings now token DOOR_ID rssi distance d :
  (run (validate now (relay token DOOR_ID rssi distance)) d).2 = VGranted →
  -70 ≤ rssi ∧ distance ≤ 90.
Proof.
  intros Hg. split.
  - destruct (decide (rssi < RSSI_THRESHOLD)) as [Hlt|]; [|unfold RSSI_THRESHOLD in *; lia].
    by destruct (validate_signal_gate now (relay token DOOR_ID rssi distance) d rssi
                   eq_refl Hlt).
  - destruct (decide (DISTANCE_THRESHOLD < distance)) as [Hlt|];
      [|unfold DISTANCE_THRESHOLD in *; lia].
    by destruct (validate_distance_gate now (relay token DOOR_ID rssi distance) d
                   distance eq_refl Hlt).
Qed.

Lemma decoder_range (c : controller) stale start polls distance :
  decoder c stale start polls = Some distance →
  distance = 999 ∨ 0 < distance < 1200.
Proof.
  destruct c; simpl;
    [unfold BleController.getRobustLidarDistance
    |unfold WifiController.getRobustLidarDistance];
    intros H;
    destruct (read_loop_result _ _ _ _ _ _ H) as [->|(rx0 & rx1 & Hb)]; auto; right.
  - eapply ble_frame_range, Hb.
  - eapply wifi_frame_range, Hb.
Qed.

Lemma servo_90_unlock : ServoWrite 90 ∈ performUnlock.
Proof. unfold performUnlock. rewrite !elem_of_cons. tauto. Qed.

Lemma servo_90_deny reason : ServoWrite 90 ∉ performDeny reason.
Proof.
  unfold performDeny. rewrite !elem_of_cons, elem_of_nil. intros [|[|[]]]; discriminate.
Qed.

(** The Wi-Fi controller against the validation service: the servo is
    driven to 90 exactly when the request had a body and an 18-character
    token and the service granted the relayed request; then the decoded
    distance is between 1 and 90, not the sentinel, and the sampled RSSI
    is at least -70; and in every case the servo, at 0 before the
    attempt, is at 0 after it. *)
Theorem wifi_door_opens_only_on_grant
    DOOR_ID hasPlain token lastRSSI stale start polls now d absent evs :
  handleUnlockRequest DOOR_ID hasPlain token lastRSSI stale start polls
    (server_reply now d absent) = Some evs →
  (ServoWrite 90 ∈ evs ↔
     hasPlain = true ∧ String.length token = 18%nat ∧
     ∃ distance,
       WifiController.getRobustLidarDistance stale start polls = Some distance ∧
       (run (validate now (relay token DOOR_ID lastRSSI distance)) d).2 = VGranted) ∧
  (ServoWrite 90 ∈ evs →
     ∃ distance,
       WifiController.getRobustLidarDistance stale start polls = Some distance ∧
       0 < distance ≤ 90 ∧ distance ≠ 999 ∧ -70 ≤ lastRSSI) ∧
  servo_after 0 evs = 0.
Proof.
  unfold handleUnlockRequest. intros Hevs.
  assert (ServoWrite 90 ∈ evs ↔
          hasPlain = true ∧ String.length token = 18%nat ∧
          ∃ distance,
            WifiController.getRobustLidarDistance stale start polls = Some distance ∧
            (run (validate now (relay token DOOR_ID lastRSSI distance)) d).2 = VGranted)
    as Hiff.
  { destruct hasPlain; simpl in Hevs.
    2:{ injection Hevs as <-. split; [|by intros [? _]].
        rewrite elem_of_cons, elem_of_nil. intros [|[]]; discriminate. }
    destruct (Nat.eqb (String.length token) 18) eqn:Hlen; simpl in Hevs.
    2:{ injection Hevs as <-. apply Nat.eqb_neq in Hlen.
        split; [|by intros (_ & ? & _)].
        rewrite elem_of_cons, elem_of_nil. intros [|[]]; discriminate. }
    apply Nat.eqb_eq in Hlen.
    destruct (WifiController.getRobustLidarDistance stale start polls)
      as [distance|] eqn:Hdec; [|discriminate].
    injection Hevs as <-. unfold server_reply.
    destruct (run (validate now (relay token DOOR_ID lastRSSI distance)) d).2 eqn:Hv;
      simpl.
    - split.
      { rewrite !elem_of_cons. intros [|[|Hin]]; try discriminate.
        by apply servo_90_deny in Hin. }
      intros (_ & _ & dist & [= <-] & Hg). rewrite Hv in Hg. discriminate.
    - split.
      { rewrite !elem_of_cons. intros [|[|Hin]]; try discriminate.
        by apply servo_90_deny in Hin. }
      intros (_ & _ & dist & [= <-] & Hg). rewrite Hv in Hg. discriminate.
    - split.
      { intros _. repeat split; try done. exists distance. by rewrite Hv. }
      intros _. do 2 apply list_elem_of_further. apply servo_90_unlock. }
  split; [exact Hiff|]. split.
  - intros Hin. apply Hiff in Hin as (_ & _ & distance & Hdec & Hg).
    exists distance. split; [done|].
    destruct (granted_readings _ _ _ _ _ _ Hg) as [Hr Hd].
    destruct (decoder_range Wifi stale start polls distance Hdec) as [->|?]; lia.
  - destruct hasPlain; simpl in Hevs; [|by injection Hevs as <-].
    destruct (Nat.eqb (String.length token) 18); simpl in Hevs;
      [|by injection Hevs as <-].
    destruct (WifiController.getRobustLidarDistance stale start polls);
      [|discriminate].
    injection Hevs as <-. clear Hiff.
    match goal with
    | |- context [httpCode ?r >? 0] => by destruct (httpCode r >? 0), (r_granted r)
    end.
Qed.

Lemma wifi_door_opens_only_on_grant_witness :
  handleUnlockRequest "D1" true "0123456789abcdef01" (-60) [] 0
    [Poll 0 good_frame; Poll 200 []] (server_reply 300 door_db "null")
  = Some (HttpPost (relay "0123456789abcdef01" "D1" (-60) 50)
          :: ServerSend 200 (Json [("status", "unlocked")]) :: performUnlock) ∧
  servo_after 0 (HttpPost (relay "0123456789abcdef01" "D1" (-60) 50)
                 :: ServerSend 200 (Json [("status", "unlocked")]) :: performUnlock) = 0.
Proof.
  assert (handleUnlockRequest "D1" true "0123456789abcdef01" (-60) [] 0
            [Poll 0 good_frame; Poll 200 []] (server_reply 300 door_db "null")
          = Some (HttpPost (relay "0123456789abcdef01" "D1" (-60) 50)
                  :: ServerSend 200 (Json [("status", "unlocked")]) :: performUnlock))
    as Hevs by (vm_compute; reflexivity).
  split; [exact Hevs|].
  destruct (wifi_door_opens_only_on_grant _ _ _ _ _ _ _ _ _ _ _ Hevs) as (_ & _ & H).
  exact H.
Defined.

(** The BLE controller against the validation service.  One run of
    [loop] drives the servo to 90 exactly when the controller was not
    scanning, Wi-Fi was connected and the service granted the relayed
    request for the token found by the scan; then the decoded distance is
    between 1 and 90, not the sentinel, and the advertised device's RSSI is
    at least -70.  The servo, at 0 before the run, is at 0 after it, and a
    run that handled an access attempt leaves the controller scanning. *)
Theorem ble_door_opens_only_on_grant
    DOOR_ID st devices stale start polls connected now d absent st' evs :
  loop DOOR_ID st devices stale start polls connected (server_reply now d absent)
  = Some (st', evs) →
  (ServoWrite 90 ∈ evs ↔
     isScanning st = false ∧ connected = true ∧
     ∃ distance,
       BleController.getRobustLidarDistance stale start polls = Some distance ∧
       (run (validate now (relay (foundToken st) DOOR_ID (foundRSSI st) distance)) d).2
       = VGranted) ∧
  (ServoWrite 90 ∈ evs →
     ∃ distance,
       BleController.getRobustLidarDistance stale start polls = Some distance ∧
       0 < distance ≤ 90 ∧ distance ≠ 999 ∧ -70 ≤ foundRSSI st) ∧
  servo_after 0 evs = 0 ∧
  (isScanning st = false → isScanning st' = true).
Proof.
  unfold loop, processAccessRequest. intros Hevs.
  assert (ServoWrite 90 ∈ evs ↔
          isScanning st = false ∧ connected = true ∧
          ∃ distance,
            BleController.getRobustLidarDistance stale start polls = Some distance ∧
            (run (validate now (relay (foundToken st) DOOR_ID (foundRSSI st) distance)) d).2
            = VGranted) as Hiff.
  { destruct (isScanning st).
    { assert (evs = []) as ->.
      { destruct (first_token devices) as [[name rssi]|]; by injection Hevs. }
      split; [by intros ?%elem_of_nil|by intros [? _]]. }
    destruct (BleController.getRobustLidarDistance stale start polls)
      as [distance|]; [|discriminate].
    destruct connected.
    2:{ injection Hevs as _ <-. split; [|by intros (_ & ? & _)].
        rewrite !elem_of_cons, elem_of_nil. intros [|[|[]]]; discriminate. }
    injection Hevs as _ <-. unfold server_reply.
    destruct (run (validate now (relay (foundToken st) DOOR_ID (foundRSSI st) distance))
                d).2 eqn:Hv; simpl.
    - split.
      { unfold performDeny. rewrite ?elem_of_cons, ?elem_of_app, ?elem_of_nil.
        intros Hin. repeat (destruct Hin as [Hin|Hin]; try discriminate). done. }
      intros (_ & _ & dist & [= <-] & Hg). rewrite Hv in Hg. discriminate.
    - split.
      { unfold performDeny. rewrite ?elem_of_cons, ?elem_of_app, ?elem_of_nil.
        intros Hin. repeat (destruct Hin as [Hin|Hin]; try discriminate). done. }
      intros (_ & _ & dist & [= <-] & Hg). rewrite Hv in Hg. discriminate.
    - split.
      { intros _. repeat split; try done. exists distance. by rewrite Hv. }
      intros _. unfold performUnlock. rewrite ?elem_of_cons, ?elem_of_app. tauto. }
  split; [exact Hiff|]. split; [|split].
  - intros Hin. apply Hiff in Hin as (_ & _ & distance & Hdec & Hg).
    exists distance. split; [done|].
    destruct (granted_readings _ _ _ _ _ _ Hg) as [Hr Hd].
    destruct (decoder_range Ble stale start polls distance Hdec) as [->|?]; lia.
  - clear Hiff. destruct (isScanning st).
    { destruct (first_token devices) as [[name rssi]|]; by injection Hevs as _ <-. }
    destruct (BleController.getRobustLidarDistance stale start polls); [|discriminate].
    destruct connected; [|by injection Hevs as _ <-].
    injection Hevs as _ <-.
    match goal with
    | |- context [httpCode ?r >? 0] => by destruct (httpCode r >? 0), (r_granted r)
    end.
  - clear Hiff. intros Hs. rewrite Hs in Hevs.
    destruct (BleController.getRobustLidarDistance stale start polls); [|discriminate].
    destruct connected; by injection Hevs as <- _.
Qed.

Lemma ble_door_opens_only_on_grant_witness :
  loop "D1" (BleState false "0123456789abcdef01" (-60)) [] [] 0
    [Poll 0 good_frame; Poll 50 []] true (server_reply 300 door_db "null")
  = Some (BleState true "0123456789abcdef01" (-60),
          (HttpPost (relay "0123456789abcdef01" "D1" (-60) 50) :: performUnlock)
          ++ [Delay 2000]) ∧
  servo_after 0 ((HttpPost (relay "0123456789abcdef01" "D1" (-60) 50) :: performUnlock)
                 ++ [Delay 2000]) = 0.
Proof.
  assert (loop "D1" (BleState false "0123456789abcdef01" (-60)) [] [] 0
            [Poll 0 good_frame; Poll 50 []] true (server_reply 300 door_db "null")
          = Some (BleState true "0123456789abcdef01" (-60),
                  (HttpPost (relay "0123456789abcdef01" "D1" (-60) 50) :: performUnlock)
                  ++ [Delay 2000])) as Hevs by (vm_compute; reflexivity).
  split; [exact Hevs|].
  destruct (ble_door_opens_only_on_grant _ _ _ _ _ _ _ _ _ _ _ _ Hevs) as (_ & _ & H & _).
  exact H.
Defined.

(** The scan picks the first device, in the order of the scan results,
    whose name is 18 characters long, and no device when there is none. *)
Theorem first_token_first_match devices :
  match first_token devices with
  | Some (name, rssi) =>
      String.length name = 18%nat ∧
      ∃ before after,
        devices = before ++ (name, rssi) :: after ∧
        Forall (λ dev, String.length dev.1 ≠ 18%nat) before
  | None => Forall (λ dev, String.length dev.1 ≠ 18%nat) devices
  end.
Proof.
  induction devices as [|[name rssi] devices IH]; simpl; [done|].
  destruct (Nat.eqb (String.length name) 18) eqn:Hlen.
  - apply Nat.eqb_eq in Hlen. split; [done|]. by exists [], devices.
  - apply Nat.eqb_neq in Hlen.
    destruct (first_token devices) as [[name' rssi']|].
    + destruct IH as (Hl & before & after & -> & Hb). split; [done|].
      exists ((name, rssi) :: before), after. split; [done|]. by constructor.
    + by constructor.
Qed.

(** * Token strings *)

Lemma hex_digit_inj n m :
  (n < 16)%N → (m < 16)%N → hex_digit n = hex_digit m → n = m.
Proof.
  unfold hex_digit. intros Hn Hm Heq.
  apply (f_equal Ascii.N_of_ascii) in Heq.
  rewrite !Ascii.N_ascii_embedding in Heq;
    try (destruct (n <? 10)%N; lia); try (destruct (m <? 10)%N; lia).
  destruct (n <? 10)%N eqn:E1, (m <? 10)%N eqn:E2;
    rewrite ?N.ltb_lt, ?N.ltb_ge in *; lia.
Qed.

Lemma byte_to_N_inj b1 b2 : Byte.to_N b1 = Byte.to_N b2 → b1 = b2.
Proof.
  intros H. pose proof (Byte.of_to_N b1) as H1. rewrite H, Byte.of_to_N in H1.
  by injection H1.
Qed.

Lemma toString_hex_inj b1 : ∀ b2, toString_hex b1 = toString_hex b2 → b1 = b2.
Proof.
  induction b1 as [|x b1 IH]; intros [|y b2]; simpl; try done.
  intros [= Hhi Hlo Hrest]. f_equal; [|by apply IH].
  pose proof (Byte.to_N_bounded x). pose proof (Byte.to_N_bounded y).
  apply hex_digit_inj in Hhi; [|apply N.Div0.div_lt_upper_bound; lia..].
  apply hex_digit_inj in Hlo; [|apply N.mod_lt; lia..].
  apply byte_to_N_inj.
  rewrite (N.div_mod (Byte.to_N x) 16), (N.div_mod (Byte.to_N y) 16) by lia.
  by rewrite Hhi, Hlo.
Qed.

Lemma toString_hex_length buffer :
  String.length (toString_hex buffer) = (2 * length buffer)%nat.
Proof. induction buffer as [|b buffer IH]; simpl; [done|]. rewrite IH. lia. Qed.

(** A token generated from SHORT_TOKEN_BYTES = 9 random bytes is 18
    characters long, so it is a non-empty request field, the Wi-Fi
    controller does not answer it with "Invalid token format", and the BLE
    scan picks it up; two tokens are equal only if their random bytes
    are. *)
Theorem generated_token_format randomBytes :
  length randomBytes = SHORT_TOKEN_BYTES →
  String.length (genRandomToken randomBytes) = 18%nat ∧
  truthy (Some (genRandomToken randomBytes)) = true ∧
  (∀ rssi devices,
     first_token ((genRandomToken randomBytes, rssi) :: devices)
     = Some (genRandomToken randomBytes, rssi)) ∧
  (∀ DOOR_ID lastRSSI stale start polls post,
     handleUnlockRequest DOOR_ID true (genRandomToken randomBytes) lastRSSI
       stale start polls post
     ≠ Some [ServerSend 400 (Json [("error", "Invalid token format")])]) ∧
  (∀ randomBytes', genRandomToken randomBytes = genRandomToken randomBytes' →
                   randomBytes = randomBytes').
Proof.
  intros Hlen.
  assert (String.length (genRandomToken randomBytes) = 18%nat) as H18.
  { unfold genRandomToken. rewrite toString_hex_length, Hlen. reflexivity. }
  split; [done|]. split; [|split; [|split]].
  - destruct (genRandomToken randomBytes); [discriminate|done].
  - intros rssi devices. simpl. by rewrite H18.
  - intros DOOR_ID lastRSSI stale start polls post. unfold handleUnlockRequest.
    rewrite H18. simpl.
    by destruct (WifiController.getRobustLidarDistance stale start polls).
  - intros randomBytes'. apply toString_hex_inj.
Qed.

Example genRandomToken_example :
  genRandomToken [Byte.x01; Byte.x23; Byte.x45; Byte.x67; Byte.x89; Byte.xab;
                  Byte.xcd; Byte.xef; Byte.x01]
  = "0123456789abcdef01".
Proof. reflexivity. Qed.

Lemma generated_token_format_witness :
  length [Byte.x01; Byte.x23; Byte.x45; Byte.x67; Byte.x89; Byte.xab;
          Byte.xcd; Byte.xef; Byte.x01] = SHORT_TOKEN_BYTES ∧
  String.length (genRandomToken [Byte.x01; Byte.x23; Byte.x45; Byte.x67; Byte.x89;
                                 Byte.xab; Byte.xcd; Byte.xef; Byte.x01]) = 18%nat.
Proof.
  assert (length [Byte.x01; Byte.x23; Byte.x45; Byte.x67; Byte.x89; Byte.xab;
                  Byte.xcd; Byte.xef; Byte.x01] = SHORT_TOKEN_BYTES) as Hlen
    by reflexivity.
  split; [exact Hlen|].
  exact (proj1 (generated_token_format _ Hlen)).
Defined.

(** * The rate-limit row over a run of requests *)

Lemma serve_token_request ADMIN_SECRET c r d now :
  request_time c r = Some now →
  ∃ tokenStr,
    serve ADMIN_SECRET r d = (run (request_token now tokenStr (Some c)) d).1 ∧
    issues c r d = match (run (request_token now tokenStr (Some c)) d).2 with
                   | TIssued _ _ => Some now
                   | _ => None
                   end.
Proof.
  destruct r as [|now' tokenStr e| | | | |]; simpl; try discriminate.
  destruct (bool_decide (e = Some c)) eqn:He; [|discriminate].
  apply bool_decide_eq_true in He as ->. intros [= ->]. by exists tokenStr.
Qed.

(** While a credential is suspended, its token requests obtain nothing
    and do not move the end of the suspension: whatever else is served,
    after any run of requests in which every token request of the
    credential reads a clock before [suspended_until], no token has been
    issued to it and its rate-limit row is the same. *)
Theorem suspension_not_extended ADMIN_SECRET c rs d :
  Forall (λ now, now < suspended_until (rate_row c d)) (omap (request_time c) rs) →
  issued_times ADMIN_SECRET c rs d = [] ∧
  rate_row c (serve_all ADMIN_SECRET rs d) = rate_row c d.
Proof.
  revert d. induction rs as [|r rs IH]; intros d Hrs; [done|].
  simpl in *. destruct (request_time c r) as [now|] eqn:Hrt.
  - apply Forall_cons in Hrs as [Hnow Hrs].
    destruct (serve_token_request ADMIN_SECRET c r d now Hrt) as (tokenStr & Hd & Hi).
    pose proof (request_token_rate_step now tokenStr c d) as Hstep. simpl in Hstep.
    destruct Hstep as [[Hrow Hno]|[(Hs & _)|(Hs & _)]]; [|lia..].
    rewrite <-Hd in Hrow.
    assert (issues c r d = None) as ->.
    { rewrite Hi. destruct (run _ d).2; try done. by destruct (Hno token expiresAt). }
    rewrite <-Hrow in Hrs. destruct (IH _ Hrs) as [-> ->]. by rewrite Hrow.
  - destruct (serve_other_credential ADMIN_SECRET c r d Hrt) as [-> Hrow].
    rewrite <-Hrow in Hrs. destruct (IH _ Hrs) as [-> ->]. by rewrite Hrow.
Qed.

Lemma suspension_not_extended_witness :
  Forall (λ now, now < suspended_until
                         (rate_row "C1" (run (request_token 4000 "dd" (Some "C1"))
                                            three_issued).1))
    (omap (request_time "C1")
       [PostRequestToken 5000 "ee" (Some "C1"); PostValidate 5001 demo_body;
        PostRequestToken 183999 "ff" (Some "C1")]) ∧
  issued_times None "C1"
    [PostRequestToken 5000 "ee" (Some "C1"); PostValidate 5001 demo_body;
     PostRequestToken 183999 "ff" (Some "C1")]
    (run (request_token 4000 "dd" (Some "C1")) three_issued).1 = [].
Proof.
  assert (Forall (λ now, now < suspended_until
                    (rate_row "C1" (run (request_token 4000 "dd" (Some "C1"))
                                       three_issued).1))
            (omap (request_time "C1")
               [PostRequestToken 5000 "ee" (Some "C1"); PostValidate 5001 demo_body;
                PostRequestToken 183999 "ff" (Some "C1")])) as Hrs.
  { repeat constructor; vm_compute; reflexivity. }
  split; [exact Hrs|].
  exact (proj1 (suspension_not_extended None "C1" _ _ Hrs)).
Defined.

(** The stored timestamp list of a credential never grows beyond
    MAX_REQUESTS = 3 entries: a list within that bound stays within it
    whatever requests are served. *)
Theorem rate_row_bounded ADMIN_SECRET c rs d :
  (length (requests (rate_row c d)) ≤ 3)%nat →
  (length (requests (rate_row c (serve_all ADMIN_SECRET rs d))) ≤ 3)%nat.
Proof.
  revert d. induction rs as [|r rs IH]; intros d Hlen; [done|].
  simpl. apply IH. destruct (request_time c r) as [now|] eqn:Hrt.
  - destruct (serve_token_request ADMIN_SECRET c r d now Hrt) as (tokenStr & -> & _).
    pose proof (request_token_rate_step now tokenStr c d) as Hstep. simpl in Hstep.
    destruct Hstep as [[-> _]|[(_ & -> & _)|(_ & Hmax & ->)]]; simpl; [done|lia|].
    rewrite length_app. simpl. unfold MAX_REQUESTS in Hmax. lia.
  - by destruct (serve_other_credential ADMIN_SECRET c r d Hrt) as [_ ->].
Qed.

Lemma rate_row_bounded_witness :
  (length (requests (rate_row "C1" demo_db)) ≤ 3)%nat ∧
  (length (requests (rate_row "C1" three_issued)) ≤ 3)%nat.
Proof.
  assert ((length (requests (rate_row "C1" demo_db)) ≤ 3)%nat) as Hlen
    by (vm_compute; lia).
  split; [exact Hlen|].
  exact (rate_row_bounded None "C1" _ demo_db Hlen).
Defined.
